(** * Repo-Manager: the batch deletion orchestrator and the filter engine

    A shallow embedding of [src/App.tsx]: the React component state is a
    record, every [set...] call is a function on that record, the two
    [useEffect] hooks that depend on [repositories] are re-run by the
    setters that change their dependencies, and the calls made through
    Octokit are answered by a deterministic remote that sees the history
    of the session and is recorded in a network log.  The earlier
    component of the second source file is embedded in [Legacy]. *)

From Stdlib Require Import ZArith List Bool String Ascii Lia.
From Stdlib Require Import Permutation Sorted.
From Stdlib Require Import Numbers.DecimalString Structures.OrderedTypeEx.
Import ListNotations.

Open Scope string_scope.
Open Scope list_scope.
Open Scope Z_scope.

(** ** JavaScript primitives used by the component *)

Module JS.

(** What [String.prototype.toLowerCase] does to a text of ASCII
    characters: the letters [A] to [Z] go to [a] to [z] and nothing else
    changes.  The mapping of the platform itself follows the Unicode
    character database and is a parameter of the development (see
    [Platform]); this one serves the platform of the examples. *)
Definition toLowerCaseASCIIChar (c : ascii) : ascii :=
  let n := N_of_ascii c in
  if ((65 <=? n) && (n <=? 90))%N then ascii_of_N (n + 32) else c.

Fixpoint toLowerCaseASCII (s : string) : string :=
  match s with
  | EmptyString => EmptyString
  | String c s' => String (toLowerCaseASCIIChar c) (toLowerCaseASCII s')
  end.

(** [s.includes(q)]: [q] occurs in [s] at some position. *)
Fixpoint includes (s q : string) : bool :=
  String.prefix q s ||
  match s with
  | EmptyString => false
  | String _ s' => includes s' q
  end.

(** A string in a condition: the empty string is falsy. *)
Definition truthy (s : string) : bool :=
  match s with EmptyString => false | _ => true end.

(** [a || b] on strings. *)
Definition or_else (a b : string) : string := if truthy a then a else b.

(** [a?.m || b] where the left side may be [undefined]. *)
Definition opt_or_else (a : option string) (b : string) : string :=
  match a with Some s => or_else s b | None => b end.

(** White space removed by [trim], on the ASCII range. *)
Definition isWhiteSpace (c : ascii) : bool :=
  let n := N_of_ascii c in
  ((n =? 32) || ((9 <=? n) && (n <=? 13)))%N.

Fixpoint trimStart (s : string) : string :=
  match s with
  | EmptyString => EmptyString
  | String c s' => if isWhiteSpace c then trimStart s' else s
  end.

Fixpoint trimEnd (s : string) : string :=
  match s with
  | EmptyString => EmptyString
  | String c s' =>
      match trimEnd s' with
      | EmptyString => if isWhiteSpace c then EmptyString else String c EmptyString
      | t => String c t
      end
  end.

Definition trim (s : string) : string := trimEnd (trimStart s).

(** [s.split(sep)] for a one-character separator; [''.split(',')] is
    [['']]. *)
Fixpoint split (sep : ascii) (s : string) : list string :=
  match s with
  | EmptyString => [EmptyString]
  | String c s' =>
      if Ascii.eqb c sep then EmptyString :: split sep s'
      else match split sep s' with
           | [] => [String c EmptyString]
           | h :: t => String c h :: t
           end
  end.

(** [xs.includes(x)] on an array of strings. *)
Definition array_includes (xs : list string) (x : string) : bool :=
  existsb (String.eqb x) xs.

(** A number in a template literal. *)
Definition show_nat (n : nat) : string :=
  NilEmpty.string_of_uint (Nat.to_uint n).

(** [Array.prototype.sort(cmp)].  ECMAScript 2019 requires the sort to be
    stable and leaves the algorithm open; for a consistent comparator the
    result does not depend on it.  The model inserts from the right, an
    element going before the first one it does not compare greater
    than. *)
Section Sort.
Context {A : Type} (cmp : A -> A -> Z).

Fixpoint sort_insert (x : A) (l : list A) : list A :=
  match l with
  | [] => [x]
  | y :: l' => if cmp x y <=? 0 then x :: y :: l' else y :: sort_insert x l'
  end.

Fixpoint sort (l : list A) : list A :=
  match l with
  | [] => []
  | x :: l' => sort_insert x (sort l')
  end.
End Sort.

(** The comparison of [sort()] without a comparator: by code units. *)
Definition defaultCompare (a b : string) : Z :=
  match String.compare a b with Lt => -1 | Eq => 0 | Gt => 1 end.

(** [Array.from(new Set(xs))]: the first occurrence of every value, in
    insertion order. *)
Fixpoint set_from (seen xs : list string) : list string :=
  match xs with
  | [] => []
  | x :: xs' =>
      if array_includes seen x then set_from seen xs'
      else x :: set_from (x :: seen) xs'
  end.

Definition Array_from_Set (xs : list string) : list string := set_from [] xs.

(** What a rejected promise or a [throw] carries: the fields the
    component reads from the caught value. *)
Record Error := mkError {
  status : option Z;
  message : string;
  response_data_message : option string
}.

(** [new Error(msg)] *)
Definition new_Error (msg : string) : Error := mkError None msg None.

End JS.

(** The parts of the platform the component calls and that no code of the
    repository defines: the lower-case mapping of
    [String.prototype.toLowerCase], which follows the Unicode character
    database (it lowers every cased letter, not the ASCII ones alone, may
    change the length of a text and depends on the context of a letter),
    the collation of [localeCompare] and the parsing of a timestamp by
    [new Date(s).getTime()].  The listing endpoint returns ISO 8601
    timestamps, on which the parse is a number.  Nothing is assumed of
    the three; what a property needs of them is a hypothesis of that
    property. *)
Class Platform := {
  toLowerCase : string -> string;
  localeCompare : string -> string -> Z;
  Date_getTime : string -> Z
}.

(** ** Data model *)

(** ['pending' | 'success' | 'error'] *)
Module DeleteStatus.
Inductive t := pending | success | error.

Definition eqb (a b : t) : bool :=
  match a, b with
  | pending, pending | success, success | error, error => true
  | _, _ => false
  end.
End DeleteStatus.

(** An element of the listing response, before the component adds its own
    fields. *)
Record ApiRepository := mkApiRepository {
  api_id : Z;
  api_name : string;
  api_html_url : string;
  api_private : bool;
  api_description : option string;
  api_created_at : string;
  api_updated_at : string;
  api_language : option string;
  api_stargazers_count : Z;
  api_forks_count : Z
}.

(** [interface Repository]; the three optional fields are [None] when
    absent. *)
Record Repository := mkRepository {
  id : Z;
  name : string;
  html_url : string;
  private : bool;
  description : option string;
  created_at : string;
  updated_at : string;
  language : option string;
  stargazers_count : Z;
  forks_count : Z;
  selected : option bool;
  deleteStatus : option DeleteStatus.t;
  errorMessage : option string
}.

(** [repo.selected] in a condition: [undefined] is falsy. *)
Definition is_selected (r : Repository) : bool :=
  match selected r with Some b => b | None => false end.

(** [{ ...repo, selected: b }] *)
Definition with_selected (b : bool) (r : Repository) : Repository :=
  mkRepository (id r) (name r) (html_url r) (private r) (description r)
    (created_at r) (updated_at r) (language r) (stargazers_count r)
    (forks_count r) (Some b) (deleteStatus r) (errorMessage r).

(** [{ ...repo, deleteStatus: s }] *)
Definition with_deleteStatus (s : DeleteStatus.t) (r : Repository) : Repository :=
  mkRepository (id r) (name r) (html_url r) (private r) (description r)
    (created_at r) (updated_at r) (language r) (stargazers_count r)
    (forks_count r) (selected r) (Some s) (errorMessage r).

(** [{ ...repo, deleteStatus: 'error', errorMessage }] *)
Definition with_error (msg : string) (r : Repository) : Repository :=
  mkRepository (id r) (name r) (html_url r) (private r) (description r)
    (created_at r) (updated_at r) (language r) (stargazers_count r)
    (forks_count r) (selected r) (Some DeleteStatus.error) (Some msg).

(** [{ ...repo, selected: false }] on an element of the listing
    response. *)
Definition of_api (a : ApiRepository) : Repository :=
  mkRepository (api_id a) (api_name a) (api_html_url a) (api_private a)
    (api_description a) (api_created_at a) (api_updated_at a)
    (api_language a) (api_stargazers_count a) (api_forks_count a)
    (Some false) None None.

Inductive SortKey := updated | created | by_name | stars | forks.

Module Filters.
Record t := mk {
  private : bool;
  public : bool;
  sortBy : SortKey;
  language : string
}.
(** The initial value of the [filters] state. *)
Definition initial : t := mk false false updated "".
End Filters.

Inductive Toast :=
| toast_success (msg : string)
| toast_error (msg : string).

(** The state of the component that the orchestrator, the fetcher, the
    filter engine and the selection handlers read or write. *)
Record State := mkState {
  token : string;
  repositories : list Repository;
  filteredRepositories : list Repository;
  loading : bool;
  error : string;
  success : string;
  deleteInProgress : bool;
  searchTerm : string;
  deleteConfirmationOpen : bool;
  filters : Filters.t;
  languages : list string;
  toasts : list Toast
}.

(** The state of a freshly mounted component. *)
Definition initialState : State :=
  mkState "" [] [] false "" "" false "" false Filters.initial [] [].

(** ** State updates

    [upd_*] replace one field; the [set*] functions of the component are
    defined below, after the effects that some of them trigger. *)

Definition upd_repositories (v : list Repository) (st : State) : State :=
  mkState (token st) v (filteredRepositories st) (loading st) (error st)
    (success st) (deleteInProgress st) (searchTerm st)
    (deleteConfirmationOpen st) (filters st) (languages st) (toasts st).

Definition setFilteredRepositories (v : list Repository) (st : State) : State :=
  mkState (token st) (repositories st) v (loading st) (error st)
    (success st) (deleteInProgress st) (searchTerm st)
    (deleteConfirmationOpen st) (filters st) (languages st) (toasts st).

Definition setLoading (v : bool) (st : State) : State :=
  mkState (token st) (repositories st) (filteredRepositories st) v (error st)
    (success st) (deleteInProgress st) (searchTerm st)
    (deleteConfirmationOpen st) (filters st) (languages st) (toasts st).

Definition setError (v : string) (st : State) : State :=
  mkState (token st) (repositories st) (filteredRepositories st) (loading st) v
    (success st) (deleteInProgress st) (searchTerm st)
    (deleteConfirmationOpen st) (filters st) (languages st) (toasts st).

Definition setSuccess (v : string) (st : State) : State :=
  mkState (token st) (repositories st) (filteredRepositories st) (loading st)
    (error st) v (deleteInProgress st) (searchTerm st)
    (deleteConfirmationOpen st) (filters st) (languages st) (toasts st).

Definition setDeleteInProgress (v : bool) (st : State) : State :=
  mkState (token st) (repositories st) (filteredRepositories st) (loading st)
    (error st) (success st) v (searchTerm st)
    (deleteConfirmationOpen st) (filters st) (languages st) (toasts st).

Definition upd_searchTerm (v : string) (st : State) : State :=
  mkState (token st) (repositories st) (filteredRepositories st) (loading st)
    (error st) (success st) (deleteInProgress st) v
    (deleteConfirmationOpen st) (filters st) (languages st) (toasts st).

Definition setDeleteConfirmationOpen (v : bool) (st : State) : State :=
  mkState (token st) (repositories st) (filteredRepositories st) (loading st)
    (error st) (success st) (deleteInProgress st) (searchTerm st)
    v (filters st) (languages st) (toasts st).

Definition upd_filters (v : Filters.t) (st : State) : State :=
  mkState (token st) (repositories st) (filteredRepositories st) (loading st)
    (error st) (success st) (deleteInProgress st) (searchTerm st)
    (deleteConfirmationOpen st) v (languages st) (toasts st).

Definition setLanguages (v : list string) (st : State) : State :=
  mkState (token st) (repositories st) (filteredRepositories st) (loading st)
    (error st) (success st) (deleteInProgress st) (searchTerm st)
    (deleteConfirmationOpen st) (filters st) v (toasts st).

Definition setToken (v : string) (st : State) : State :=
  mkState v (repositories st) (filteredRepositories st) (loading st)
    (error st) (success st) (deleteInProgress st) (searchTerm st)
    (deleteConfirmationOpen st) (filters st) (languages st) (toasts st).

(** [toast.success(msg)] and [toast.error(msg)]: the notification is added
    after the ones already shown. *)
Definition toast (t : Toast) (st : State) : State :=
  mkState (token st) (repositories st) (filteredRepositories st) (loading st)
    (error st) (success st) (deleteInProgress st) (searchTerm st)
    (deleteConfirmationOpen st) (filters st) (languages st)
    (toasts st ++ [t]).

(** ** The filter engine: [filterRepositories] *)

(** The predicate of the search filter. *)
Definition matchesSearch {P : Platform} (term : string) (repo : Repository)
  : bool :=
  JS.includes (toLowerCase (name repo)) (toLowerCase term) ||
  match description repo with
  | Some d => JS.includes (toLowerCase d) (toLowerCase term)
  | None => false
  end.

(** [repo.language === filters.language] *)
Definition language_is (l : string) (repo : Repository) : bool :=
  match language repo with
  | Some l' => String.eqb l' l
  | None => false
  end.

(** The comparator given to [sort]. *)
Definition comparator {P : Platform} (k : SortKey) (a b : Repository) : Z :=
  match k with
  | by_name => localeCompare (name a) (name b)
  | created => Date_getTime (created_at b) - Date_getTime (created_at a)
  | updated => Date_getTime (updated_at b) - Date_getTime (updated_at a)
  | stars => stargazers_count b - stargazers_count a
  | forks => forks_count b - forks_count a
  end.

(** The three filters of [filterRepositories], in the order of the
    source. *)
Definition searchFilter {P : Platform} (term : string) (l : list Repository)
  : list Repository :=
  if JS.truthy term then filter (matchesSearch term) l else l.

Definition visibilityFilter (f : Filters.t) (l : list Repository) : list Repository :=
  if Filters.private f && negb (Filters.public f) then filter private l
  else if Filters.public f && negb (Filters.private f)
       then filter (fun repo => negb (private repo)) l
       else l.

Definition languageFilter (f : Filters.t) (l : list Repository) : list Repository :=
  if JS.truthy (Filters.language f)
  then filter (language_is (Filters.language f)) l
  else l.

(** The body of [filterRepositories] as a function of what it reads. *)
Definition derive {P : Platform}
  (catalog : list Repository) (term : string) (f : Filters.t) : list Repository :=
  let filtered := catalog in
  let filtered := searchFilter term filtered in
  let filtered := visibilityFilter f filtered in
  let filtered := languageFilter f filtered in
  JS.sort (comparator (Filters.sortBy f)) filtered.

Definition filterRepositories {P : Platform} (st : State) : State :=
  setFilteredRepositories (derive (repositories st) (searchTerm st) (filters st)) st.

(** ** The available languages *)

(** [.filter(lang => lang !== null)] *)
Fixpoint non_null (l : list (option string)) : list string :=
  match l with
  | [] => []
  | Some x :: l' => x :: non_null l'
  | None :: l' => non_null l'
  end.

Definition uniqueLanguages (repos : list Repository) : list string :=
  JS.sort JS.defaultCompare (JS.Array_from_Set (non_null (map language repos))).

(** The effect that depends on [repositories] and sets [languages]. *)
Definition languagesEffect (st : State) : State :=
  if (0 <? List.length (repositories st))%nat
  then setLanguages (uniqueLanguages (repositories st)) st
  else st.

(** ** Setters of the dependencies of an effect

    After a render in which a dependency changed React runs the effect; the
    setters below run the effects of the dependency they change, in the
    order the component declares them. *)

Definition setRepositories {P : Platform}
  (f : list Repository -> list Repository) (st : State) : State :=
  languagesEffect (filterRepositories (upd_repositories (f (repositories st)) st)).

Definition setSearchTerm {P : Platform} (v : string) (st : State) : State :=
  filterRepositories (upd_searchTerm v st).

Definition setFilters {P : Platform} (v : Filters.t) (st : State) : State :=
  filterRepositories (upd_filters v st).

(** ** The selection manager *)

Definition toggleSelectAll {P : Platform} (checked : bool) (st : State) : State :=
  setRepositories (map (fun repo => with_selected checked repo)) st.

Definition toggleRepository {P : Platform} (id0 : Z) (st : State) : State :=
  setRepositories
    (map (fun repo =>
            if id repo =? id0
            then with_selected (negb (is_selected repo)) repo
            else repo)) st.

Definition removeFromSelection {P : Platform} (id0 : Z) (st : State) : State :=
  let st1 :=
    setRepositories
      (map (fun repo => if id repo =? id0 then with_selected false repo else repo))
      st in
  let remainingSelected :=
    List.length (filter (fun repo => negb (id repo =? id0) && is_selected repo)
              (repositories st)) in
  let st2 :=
    if (remainingSelected =? 0)%nat then setDeleteConfirmationOpen false st1
    else st1 in
  toast (toast_success "Repository removed from selection") st2.

(** The checkbox of a row of the list: [disabled] while the row's item is
    pending, and a disabled input dispatches no change event. *)
Definition checkbox_disabled (repo : Repository) : bool :=
  match deleteStatus repo with
  | Some s => DeleteStatus.eqb s DeleteStatus.pending
  | None => false
  end.

Definition checkbox_onChange {P : Platform} (repo : Repository) (st : State) : State :=
  toggleRepository (id repo) st.

Definition clickCheckbox {P : Platform} (repo : Repository) (st : State) : State :=
  if checkbox_disabled repo then st else checkbox_onChange repo st.

(** ** The remote API *)

Inductive Request :=
| GET_user
| GET_user_repos (per_page : Z) (sort affiliation : string)
| DELETE_repos (owner repo : string).

(** What the session does on the network, oldest first: a request goes
    out, a request settles (with the rejection, if any), a timer runs. *)
Inductive Event :=
| Sent (r : Request)
| Settled (r : Request) (failure : option JS.Error)
| Timeout (ms : Z).

(** The remote side: what it answers to a request made with a credential,
    given everything that happened before.  A fulfilled identity lookup
    carries the [x-oauth-scopes] header, if present, and the login. *)
Record Remote := mkRemote {
  respond_user : string -> list Event -> JS.Error + (option string * string);
  respond_repos : string -> list Event -> JS.Error + list ApiRepository;
  respond_delete : string -> list Event -> string -> string -> option JS.Error
}.

Record World := mkWorld {
  ui : State;
  network : list Event
}.

Definition on_ui (f : State -> State) (w : World) : World :=
  mkWorld (f (ui w)) (network w).

Definition record (es : list Event) (w : World) : World :=
  mkWorld (ui w) (network w ++ es).

Definition failure_of {A : Type} (res : JS.Error + A) : option JS.Error :=
  match res with inl e => Some e | inr _ => None end.

(** The repositories whose deletion was requested, oldest first. *)
Fixpoint deletions (log : list Event) : list string :=
  match log with
  | [] => []
  | Sent (DELETE_repos _ repo) :: log' => repo :: deletions log'
  | _ :: log' => deletions log'
  end.

(** The identity lookups and the listing requests of a log. *)
Fixpoint lookups (log : list Event) : nat :=
  match log with
  | [] => O
  | Sent GET_user :: log' => S (lookups log')
  | _ :: log' => lookups log'
  end.

Fixpoint listings (log : list Event) : nat :=
  match log with
  | [] => O
  | Sent (GET_user_repos _ _ _) :: log' => S (listings log')
  | _ :: log' => listings log'
  end.

Definition Request_eqb (a b : Request) : bool :=
  match a, b with
  | GET_user, GET_user => true
  | GET_user_repos n s f, GET_user_repos n' s' f' =>
      (n =? n') && String.eqb s s' && String.eqb f f'
  | DELETE_repos o r, DELETE_repos o' r' => String.eqb o o' && String.eqb r r'
  | _, _ => false
  end.

(** Reading a log from its start with [inflight] the request awaited, if
    any: the request awaited at the end, or [None] when a request went
    out while another one was in flight or when something settled that
    was not awaited. *)
Fixpoint awaiting (inflight : option Request) (log : list Event)
  : option (option Request) :=
  match log with
  | [] => Some inflight
  | Sent r :: log' =>
      match inflight with
      | None => awaiting (Some r) log'
      | Some _ => None
      end
  | Settled r _ :: log' =>
      match inflight with
      | Some r' => if Request_eqb r r' then awaiting None log' else None
      | None => None
      end
  | Timeout _ :: log' => awaiting inflight log'
  end.

(** Every request of the log settled before the next one went out, and
    none is left in flight. *)
Definition sequential (log : list Event) : Prop :=
  awaiting None log = Some None.

Section Operations.
Context {P : Platform} (R : Remote).

(** [await octokit.request(...)], per endpoint. *)
Definition request_user (tok : string) (w : World)
  : World * (JS.Error + (option string * string)) :=
  let res := respond_user R tok (network w) in
  (record [Sent GET_user; Settled GET_user (failure_of res)] w, res).

Definition request_repos (tok : string) (w : World)
  : World * (JS.Error + list ApiRepository) :=
  let req := GET_user_repos 100 "updated" "owner" in
  let res := respond_repos R tok (network w) in
  (record [Sent req; Settled req (failure_of res)] w, res).

Definition request_delete (tok owner repo : string) (w : World)
  : World * option JS.Error :=
  let req := DELETE_repos owner repo in
  let res := respond_delete R tok (network w) owner repo in
  (record [Sent req; Settled req res] w, res).

(** ** The credential verifier *)

Definition hasDeleteScope (scopes : string) : bool :=
  JS.array_includes (map JS.trim (JS.split "," scopes)) "delete_repo".

(** The [try] block: the value returned or the value thrown. *)
Definition verify_try (res : JS.Error + (option string * string))
  : JS.Error + string :=
  match res with
  | inl err => inl err
  | inr (header, login) =>
      let scopes := JS.opt_or_else header "" in
      if negb (hasDeleteScope scopes)
      then inl (JS.new_Error "Token does not have delete_repo scope. Please generate a new token with the delete_repo permission.")
      else inr login
  end.

(** The [catch] block: it always throws again. *)
Definition verify_catch (err : JS.Error) : JS.Error :=
  if match JS.status err with Some s => s =? 401 | None => false end
  then JS.new_Error "Invalid token. Please check your token and try again."
  else JS.new_Error
         (JS.or_else (JS.message err)
            "Failed to verify token permissions. Please ensure your token is valid and has the delete_repo scope.").

(** What [verifyTokenPermissions] returns or throws, from the answer to
    the identity lookup. *)
Definition verify_outcome (res : JS.Error + (option string * string))
  : JS.Error + string :=
  match verify_try res with
  | inl err => inl (verify_catch err)
  | inr login => inr login
  end.

Definition verifyTokenPermissions (tok : string) (w : World)
  : World * (JS.Error + string) :=
  let (w1, res) := request_user tok w in
  (w1, verify_outcome res).

(** ** The catalog fetcher *)

Definition fetch_catch (err : JS.Error) (w : World) : World :=
  let w := on_ui (toast (toast_error
              (JS.or_else (JS.message err) "Failed to fetch repositories"))) w in
  let w := on_ui (setError
              (JS.or_else (JS.message err)
                 "Failed to fetch repositories. Please check your token.")) w in
  on_ui (setRepositories (fun _ => [])) w.

Definition fetchRepositories (w : World) : World :=
  let w := on_ui (setLoading true) w in
  let w := on_ui (setError "") w in
  let w := on_ui (setSuccess "") w in
  let tok := token (ui w) in
  let w :=
    match verifyTokenPermissions tok w with
    | (w, inl err) => fetch_catch err w
    | (w, inr username) =>
        match request_repos tok w with
        | (w, inl err) => fetch_catch err w
        | (w, inr data) =>
            let w := on_ui (setRepositories (fun _ => map of_api data)) w in
            on_ui (toast (toast_success
                     ("Successfully loaded " ++ JS.show_nat (List.length data)
                      ++ " repositories for " ++ username)%string)) w
        end
    end in
  on_ui (setLoading false) w.

(** ** The batch deletion orchestrator *)

Definition handleDeleteSelected (w : World) : World :=
  let selectedRepos := filter is_selected (repositories (ui w)) in
  if (List.length selectedRepos =? 0)%nat
  then on_ui (toast (toast_error "Please select repositories to delete")) w
  else on_ui (setDeleteConfirmationOpen true) w.

(** The running state of the loop of [confirmDelete]. *)
Record Batch := mkBatch {
  world : World;
  successCount : nat;
  failureCount : nat
}.

(** One iteration of [for (const repo of selectedRepos)]. *)
Definition deleteOne (tok username : string) (repo : Repository) (b : Batch) : Batch :=
  match request_delete tok username (name repo) (world b) with
  | (w, None) =>
      let w := on_ui (setRepositories
                 (map (fun r => if id r =? id repo
                                then with_deleteStatus DeleteStatus.success r
                                else r))) w in
      let w := on_ui (toast (toast_success ("Deleted " ++ name repo)%string)) w in
      let w := record [Timeout 1000] w in
      mkBatch w (S (successCount b)) (failureCount b)
  | (w, Some err) =>
      let errorMessage :=
        JS.opt_or_else (JS.response_data_message err) "Unknown error occurred" in
      let w := on_ui (setRepositories
                 (map (fun r => if id r =? id repo
                                then with_error errorMessage r
                                else r))) w in
      let w := on_ui (toast (toast_error ("Failed to delete " ++ name repo)%string)) w in
      mkBatch w (successCount b) (S (failureCount b))
  end.

Fixpoint deleteLoop (tok username : string) (selectedRepos : list Repository)
  (b : Batch) : Batch :=
  match selectedRepos with
  | [] => b
  | repo :: rest => deleteLoop tok username rest (deleteOne tok username repo b)
  end.

(** What follows the loop. *)
Definition report (b : Batch) : World :=
  if (0 <? failureCount b)%nat
  then on_ui (setError
                ("Failed to delete " ++ JS.show_nat (failureCount b)
                 ++ " repositories. " ++ JS.show_nat (successCount b)
                 ++ " repositories were deleted successfully.")%string) (world b)
  else fetchRepositories
         (on_ui (setSuccess "All selected repositories were deleted successfully!")
            (world b)).

Definition markPending (repos : list Repository) : list Repository :=
  map (fun repo => if is_selected repo
                   then with_deleteStatus DeleteStatus.pending repo
                   else repo) repos.

(** The statements of [confirmDelete] before its [try] block. *)
Definition confirm_prologue (w : World) : World :=
  let w := on_ui (setDeleteConfirmationOpen false) w in
  let w := on_ui (setDeleteInProgress true) w in
  let w := on_ui (setError "") w in
  on_ui (setSuccess "") w.

(** The [try] block once the credential is verified, up to the end of
    the loop. *)
Definition runBatch (tok username : string) (selectedRepos : list Repository)
  (w : World) : Batch :=
  let w := on_ui (setRepositories markPending) w in
  deleteLoop tok username selectedRepos (mkBatch w 0 0).

Definition confirmDelete (w : World) : World :=
  let selectedRepos := filter is_selected (repositories (ui w)) in
  let w := confirm_prologue w in
  let tok := token (ui w) in
  let w :=
    match verifyTokenPermissions tok w with
    | (w, inr username) => report (runBatch tok username selectedRepos w)
    | (w, inl err) =>
        let w := on_ui (setError (JS.message err)) w in
        on_ui (toast (toast_error (JS.message err))) w
    end in
  on_ui (setDeleteInProgress false) w.

(** ** What the remote answers along a batch

    The answer to the deletion of every item of the loop, in the order of
    the loop, from the log at the start of the loop. *)
Definition delete_events (username : string) (repo : Repository)
  (res : option JS.Error) : list Event :=
  [Sent (DELETE_repos username (name repo));
   Settled (DELETE_repos username (name repo)) res]
  ++ match res with None => [Timeout 1000] | Some _ => [] end.

Fixpoint outcomes (tok username : string) (selectedRepos : list Repository)
  (log : list Event) : list (Repository * option JS.Error) :=
  match selectedRepos with
  | [] => []
  | repo :: rest =>
      let res := respond_delete R tok log username (name repo) in
      (repo, res) :: outcomes tok username rest (log ++ delete_events username repo res)
  end.

End Operations.

(** ** The earlier component

    The second source file is the component before the filter engine, the
    confirmation view and the notifications were added: no effect depends
    on the catalog, the fetcher reports through [success], and
    [handleDeleteSelected] asks [window.confirm] and runs the batch
    itself. *)

Module Legacy.
Section Operations.
Context (R : Remote).

Definition setRepositories (f : list Repository -> list Repository)
  (st : State) : State :=
  upd_repositories (f (repositories st)) st.

Definition fetch_catch (err : JS.Error) (w : World) : World :=
  let w := on_ui (setError
              (JS.or_else (JS.message err)
                 "Failed to fetch repositories. Please check your token.")) w in
  on_ui (setRepositories (fun _ => [])) w.

Definition fetchRepositories (w : World) : World :=
  let w := on_ui (setLoading true) w in
  let w := on_ui (setError "") w in
  let w := on_ui (setSuccess "") w in
  let tok := token (ui w) in
  let w :=
    match verifyTokenPermissions R tok w with
    | (w, inl err) => fetch_catch err w
    | (w, inr username) =>
        match request_repos R tok w with
        | (w, inl err) => fetch_catch err w
        | (w, inr data) =>
            let w := on_ui (setRepositories (fun _ => map of_api data)) w in
            on_ui (setSuccess
                     ("Successfully loaded " ++ JS.show_nat (List.length data)
                      ++ " repositories for " ++ username)%string) w
        end
    end in
  on_ui (setLoading false) w.

Definition deleteOne (tok username : string) (repo : Repository) (b : Batch) : Batch :=
  match request_delete R tok username (name repo) (world b) with
  | (w, None) =>
      let w := on_ui (setRepositories
                 (map (fun r => if id r =? id repo
                                then with_deleteStatus DeleteStatus.success r
                                else r))) w in
      let w := record [Timeout 1000] w in
      mkBatch w (S (successCount b)) (failureCount b)
  | (w, Some err) =>
      let errorMessage :=
        JS.opt_or_else (JS.response_data_message err) "Unknown error occurred" in
      let w := on_ui (setRepositories
                 (map (fun r => if id r =? id repo
                                then with_error errorMessage r
                                else r))) w in
      mkBatch w (successCount b) (S (failureCount b))
  end.

Fixpoint deleteLoop (tok username : string) (selectedRepos : list Repository)
  (b : Batch) : Batch :=
  match selectedRepos with
  | [] => b
  | repo :: rest => deleteLoop tok username rest (deleteOne tok username repo b)
  end.

Definition report (b : Batch) : World :=
  if (0 <? failureCount b)%nat
  then on_ui (setError
                ("Failed to delete " ++ JS.show_nat (failureCount b)
                 ++ " repositories. " ++ JS.show_nat (successCount b)
                 ++ " repositories were deleted successfully.")%string) (world b)
  else fetchRepositories
         (on_ui (setSuccess "All selected repositories were deleted successfully!")
            (world b)).

(** The question put to the user. *)
Definition prompt (n : nat) : string :=
  ("Are you sure you want to delete " ++ JS.show_nat n
   ++ " repositories? This action cannot be undone!")%string.

(** [window_confirm] is what the user answers to the prompt. *)
Definition handleDeleteSelected (window_confirm : string -> bool) (w : World)
  : World :=
  let selectedRepos := filter is_selected (repositories (ui w)) in
  if (List.length selectedRepos =? 0)%nat
  then on_ui (setError "Please select repositories to delete") w
  else
    if negb (window_confirm (prompt (List.length selectedRepos)))
    then w
    else
      let w := on_ui (setDeleteInProgress true) w in
      let w := on_ui (setError "") w in
      let w := on_ui (setSuccess "") w in
      let tok := token (ui w) in
      let w :=
        match verifyTokenPermissions R tok w with
        | (w, inr username) =>
            let w := on_ui (setRepositories markPending) w in
            report (deleteLoop tok username selectedRepos (mkBatch w 0 0))
        | (w, inl err) => on_ui (setError (JS.message err)) w
        end in
      on_ui (setDeleteInProgress false) w.

End Operations.
End Legacy.

Definition failed (o : Repository * option JS.Error) : bool :=
  match snd o with Some _ => true | None => false end.

(** The message kept on an item whose deletion was rejected. *)
Definition kept_message (err : JS.Error) : string :=
  JS.opt_or_else (JS.response_data_message err) "Unknown error occurred".

(** ** What a batch and a fetch add to the network log *)

Definition batch_events (username : string)
  (outs : list (Repository * option JS.Error)) : list Event :=
  flat_map (fun o => delete_events username (fst o) (snd o)) outs.

Definition fetch_events (R : Remote) (tok : string)
  (log : list Event) : list Event :=
  let lookup := [Sent GET_user;
                 Settled GET_user (failure_of (respond_user R tok log))] in
  match verify_outcome (respond_user R tok log) with
  | inl _ => lookup
  | inr _ =>
      let req := GET_user_repos 100 "updated" "owner" in
      lookup ++ [Sent req;
                 Settled req (failure_of (respond_repos R tok (log ++ lookup)))]
  end.

(** What the loop does to one item of the catalog for one item of the
    selection, and to the catalog. *)
Definition settle_one (o : Repository * option JS.Error) (r : Repository)
  : Repository :=
  if id r =? id (fst o)
  then match snd o with
       | None => with_deleteStatus DeleteStatus.success r
       | Some err => with_error (kept_message err) r
       end
  else r.

Definition settle_item (o : Repository * option JS.Error)
  (repos : list Repository) : list Repository :=
  map (settle_one o) repos.

(** ** The words of the specification *)

(** [q] is a case-insensitive substring of [s]: with the case of the
    letters set aside, that is with both texts in their lower-case form,
    [q] occurs in [s]. *)
Definition ci_substring {P : Platform} (q s : string) : Prop :=
  exists pre post : string,
    toLowerCase s = (pre ++ toLowerCase q ++ post)%string.

(** The matching rule. *)
Definition matching_rule {P : Platform} (query : string) (r : Repository)
  : Prop :=
  query = "" \/ ci_substring query (name r) \/
  exists d, description r = Some d /\ ci_substring query d.

(** The visibility rule and the language rule. *)
Definition visibility_rule (f : Filters.t) (r : Repository) : Prop :=
  (Filters.private f = true /\ Filters.public f = false -> private r = true) /\
  (Filters.public f = true /\ Filters.private f = false -> private r = false).

Definition language_rule (f : Filters.t) (r : Repository) : Prop :=
  Filters.language f = "" \/ language r = Some (Filters.language f).

(** A comparator the sort can rely on: [a] compares less than [b] exactly
    when [b] compares greater than [a], and not comparing greater is
    transitive. *)
Record consistent {A : Type} (cmp : A -> A -> Z) : Prop := {
  cmp_sign : forall a b, cmp a b < 0 <-> 0 < cmp b a;
  cmp_trans : forall a b c, cmp a b <= 0 -> cmp b c <= 0 -> cmp a c <= 0
}.

(** The order a sort key asks for, between an item and one that follows
    it. *)
Definition in_order {P : Platform} (k : SortKey) (a b : Repository) : Prop :=
  match k with
  | by_name => localeCompare (name a) (name b) <= 0
  | created => Date_getTime (created_at a) >= Date_getTime (created_at b)
  | updated => Date_getTime (updated_at a) >= Date_getTime (updated_at b)
  | stars => stargazers_count a >= stargazers_count b
  | forks => forks_count a >= forks_count b
  end.

(** Two items that differ at most by [selected]. *)
Definition same_but_selected (r r' : Repository) : Prop :=
  id r' = id r /\ name r' = name r /\ html_url r' = html_url r /\
  private r' = private r /\ description r' = description r /\
  created_at r' = created_at r /\ updated_at r' = updated_at r /\
  language r' = language r /\ stargazers_count r' = stargazers_count r /\
  forks_count r' = forks_count r /\ deleteStatus r' = deleteStatus r /\
  errorMessage r' = errorMessage r.

(** An item as a successful fetch leaves it. *)
Definition fresh (r : Repository) : Prop :=
  selected r = Some false /\ deleteStatus r = None /\ errorMessage r = None.

(** ** A concrete platform, remotes and catalogs

    Used to run the definitions on examples. *)

(** The lower-case mapping of ASCII text, collation by code units and
    timestamps read as their length.  The texts of the examples are
    ASCII, where the first is what [String.prototype.toLowerCase]
    computes. *)
Definition ordinalPlatform : Platform :=
  {| toLowerCase := JS.toLowerCaseASCII;
     localeCompare := JS.defaultCompare;
     Date_getTime := fun s => Z.of_nat (String.length s) |}.

Definition sample (i : Z) (n : string) (priv : bool) (d l : option string)
  (st fk : Z) (sel : option bool) : Repository :=
  mkRepository i n "" priv d "2020" "2021" l st fk sel None None.

Definition repoA : Repository :=
  sample 1 "alpha" false (Some "First tool") (Some "Go") 3 0 (Some false).
Definition repoB : Repository :=
  sample 2 "beta" true None (Some "C") 1 5 (Some false).
Definition repoC : Repository :=
  sample 3 "gamma" false (Some "Pending work") None 2 2 (Some true).

(** An item that has a name and nothing else. *)
Definition named (n : string) : Repository :=
  sample 0 n false None None 0 0 None.

Definition apiA : ApiRepository :=
  mkApiRepository 1 "alpha" "" false (Some "First tool") "2020" "2021" (Some "Go") 3 0.

(** A remote that accepts the credential, lists [apiA] and deletes every
    repository but the one named [beta]. *)
Definition goodRemote : Remote :=
  mkRemote
    (fun _ _ => inr (Some "repo, delete_repo", "octocat"))
    (fun _ _ => inr [apiA])
    (fun _ _ _ repo =>
       if String.eqb repo "beta"
       then Some (JS.mkError (Some 403) "Forbidden" (Some "Must have admin rights"))
       else None).

(** A remote that rejects the credential. *)
Definition badRemote : Remote :=
  mkRemote
    (fun _ _ => inl (JS.mkError (Some 401) "Bad credentials" None))
    (fun _ _ => inl (JS.mkError (Some 401) "Bad credentials" None))
    (fun _ _ _ _ => Some (JS.mkError (Some 401) "Bad credentials" None)).

Definition stateOf (repos : list Repository) : State :=
  setRepositories (P := ordinalPlatform) (fun _ => repos)
    (setToken "ghp_token" initialState).

Definition worldOf (repos : list Repository) : World :=
  mkWorld (stateOf repos) [].

(** ** Three sentences of the specification, as it words them *)

(** The order of a batch as the specification words it: the deletions
    follow the order in which the user ticked the items.  It fails on a
    catalog of two items ticked in the reverse of their catalog order. *)
Definition deletes_in_selection_order : Prop :=
  forall (R : Remote) (catalog clicks : list Repository) (u : string),
    NoDup clicks ->
    incl clicks catalog ->
    (forall r, In r catalog -> is_selected r = false) ->
    let st := fold_left (fun st r => clickCheckbox (P := ordinalPlatform) r st)
                clicks (stateOf catalog) in
    snd (verifyTokenPermissions R (token st) (mkWorld st [])) = inr u ->
    deletions (network (confirmDelete (P := ordinalPlatform) R (mkWorld st [])))
    = map name clicks.


(** The available languages as the specification words them: the list
    follows the catalog after every change, a failed fetch included.  It
    fails when a fetch is rejected on a catalog that had a language. *)
Definition languages_follow_every_change : Prop :=
  forall (R : Remote) (w : World),
    languages (ui (fetchRepositories (P := ordinalPlatform) R w))
    = uniqueLanguages
        (repositories (ui (fetchRepositories (P := ordinalPlatform) R w))).

(** ** The rest of the view, and what the further properties speak of *)

(** [const selectedRepositories = repositories.filter(repo => repo.selected)],
    what the confirmation view lists. *)
Definition selectedRepositories (st : State) : list Repository :=
  filter is_selected (repositories st).

(** The Delete Selected button is
    [disabled={deleteInProgress || !repositories.some(r => r.selected)}]
    and calls [handleDeleteSelected]; a disabled button dispatches no
    click. *)
Definition deleteButton_disabled (st : State) : bool :=
  deleteInProgress st || negb (existsb is_selected (repositories st)).

Definition clickDeleteSelected (w : World) : World :=
  if deleteButton_disabled (ui w) then w else handleDeleteSelected w.

(** The fields of the component that neither the catalog setter nor a
    notification writes. *)
Definition controls (st : State)
  : string * bool * string * string * bool * string * bool * Filters.t :=
  (token st, loading st, error st, success st, deleteInProgress st,
   searchTerm st, deleteConfirmationOpen st, filters st).

(** The view and the list of languages are those of the catalog. *)
Definition view_in_sync {P : Platform} (st : State) : Prop :=
  filteredRepositories st
  = derive (repositories st) (searchTerm st) (filters st).

Definition languages_in_sync (st : State) : Prop :=
  repositories st <> [] -> languages st = uniqueLanguages (repositories st).

Definition in_sync {P : Platform} (st : State) : Prop :=
  view_in_sync st /\ languages_in_sync st.

(** What the component and the earlier one can be compared on: the
    network log, the catalog, the credential, the error and the two
    progress flags. *)
Definition agree (w w' : World) : Prop :=
  network w = network w' /\
  repositories (ui w) = repositories (ui w') /\
  token (ui w) = token (ui w') /\
  error (ui w) = error (ui w') /\
  loading (ui w) = loading (ui w') /\
  deleteInProgress (ui w) = deleteInProgress (ui w').

(** Two items that differ at most by [deleteStatus] and [errorMessage]. *)
Definition same_but_status (r r' : Repository) : Prop :=
  id r' = id r /\ name r' = name r /\ html_url r' = html_url r /\
  private r' = private r /\ description r' = description r /\
  created_at r' = created_at r /\ updated_at r' = updated_at r /\
  language r' = language r /\ stargazers_count r' = stargazers_count r /\
  forks_count r' = forks_count r /\ selected r' = selected r.

(** An item whose deletion was answered. *)
Definition resolved (r : Repository) : Prop :=
  deleteStatus r = Some DeleteStatus.success \/
  deleteStatus r = Some DeleteStatus.error.

(** The notification of the loop for one item. *)
Definition batch_toast (o : Repository * option JS.Error) : Toast :=
  if failed o
  then toast_error ("Failed to delete " ++ name (fst o))%string
  else toast_success ("Deleted " ++ name (fst o))%string.

(** The owners named by the deletions of a log and the timers it ran,
    oldest first. *)
Fixpoint owners (log : list Event) : list string :=
  match log with
  | [] => []
  | Sent (DELETE_repos owner _) :: log' => owner :: owners log'
  | _ :: log' => owners log'
  end.

Fixpoint delays (log : list Event) : list Z :=
  match log with
  | [] => []
  | Timeout ms :: log' => ms :: delays log'
  | _ :: log' => delays log'
  end.

(** A scope as the header lists it: it holds no comma. *)
Definition comma_free (s : string) : Prop :=
  ~ In ","%char (list_ascii_of_string s).

(** * Properties *)

Ltac solve_NoDup :=
  vm_compute;
  repeat (constructor; [simpl; intuition discriminate|]);
  constructor.

Arguments setRepositories : simpl never.
Arguments derive : simpl never.
Arguments uniqueLanguages : simpl never.

(** ** Lists *)

Lemma filter_nothing {A : Type} (f : A -> bool) (l : list A) :
  (forall x, In x l -> f x = false) -> filter f l = [].
Proof.
  induction l as [|a l IH]; intros H; simpl.
  - reflexivity.
  - rewrite (H a (or_introl eq_refl)). apply IH.
    intros x Hx. apply H. now right.
Qed.

Lemma filter_everything {A : Type} (f : A -> bool) (l : list A) :
  (forall x, In x l -> f x = true) -> filter f l = l.
Proof.
  induction l as [|a l IH]; intros H; simpl.
  - reflexivity.
  - rewrite (H a (or_introl eq_refl)). f_equal. apply IH.
    intros x Hx. apply H. now right.
Qed.

(** ** What the setters leave alone *)

Section Setters.
Context {P : Platform}.
Variables (f : list Repository -> list Repository) (st : State).

Lemma repositories_setRepositories :
  repositories (setRepositories f st) = f (repositories st).
Proof.
  unfold setRepositories, languagesEffect.
  destruct (0 <? _)%nat; reflexivity.
Qed.

Lemma filteredRepositories_setRepositories :
  filteredRepositories (setRepositories f st)
  = derive (f (repositories st)) (searchTerm st) (filters st).
Proof.
  unfold setRepositories, languagesEffect.
  destruct (0 <? _)%nat; reflexivity.
Qed.

Lemma languages_setRepositories :
  languages (setRepositories f st)
  = match f (repositories st) with
    | [] => languages st
    | _ :: _ => uniqueLanguages (f (repositories st))
    end.
Proof.
  unfold setRepositories, languagesEffect. simpl.
  destruct (f (repositories st)); reflexivity.
Qed.

Lemma token_setRepositories : token (setRepositories f st) = token st.
Proof.
  unfold setRepositories, languagesEffect.
  destruct (0 <? _)%nat; reflexivity.
Qed.

Lemma toasts_setRepositories : toasts (setRepositories f st) = toasts st.
Proof.
  unfold setRepositories, languagesEffect.
  destruct (0 <? _)%nat; reflexivity.
Qed.

Lemma error_setRepositories : error (setRepositories f st) = error st.
Proof.
  unfold setRepositories, languagesEffect.
  destruct (0 <? _)%nat; reflexivity.
Qed.

Lemma success_setRepositories : success (setRepositories f st) = success st.
Proof.
  unfold setRepositories, languagesEffect.
  destruct (0 <? _)%nat; reflexivity.
Qed.

Lemma searchTerm_setRepositories :
  searchTerm (setRepositories f st) = searchTerm st.
Proof.
  unfold setRepositories, languagesEffect.
  destruct (0 <? _)%nat; reflexivity.
Qed.

Lemma filters_setRepositories : filters (setRepositories f st) = filters st.
Proof.
  unfold setRepositories, languagesEffect.
  destruct (0 <? _)%nat; reflexivity.
Qed.
End Setters.

Create Rewrite HintDb state.

#[global] Hint Rewrite
  @repositories_setRepositories @token_setRepositories
  @toasts_setRepositories @error_setRepositories @success_setRepositories
  @searchTerm_setRepositories @filters_setRepositories : state.

(** ** The credential verifier *)

Section Verifier.
Context {P : Platform} (R : Remote).

Lemma verifyTokenPermissions_eq (tok : string) (w : World) :
  verifyTokenPermissions R tok w
  = (record [Sent GET_user;
             Settled GET_user (failure_of (respond_user R tok (network w)))] w,
     verify_outcome (respond_user R tok (network w))).
Proof. reflexivity. Qed.

(** The verdict reads the credential and the log, not the component. *)
Lemma verifyTokenPermissions_on_ui (g : State -> State) (tok : string) (w : World) :
  verifyTokenPermissions R tok (on_ui g w)
  = (on_ui g (fst (verifyTokenPermissions R tok w)),
     snd (verifyTokenPermissions R tok w)).
Proof. reflexivity. Qed.

Lemma verify_outcome_fails (res : JS.Error + (option string * string)) :
  (exists err, verify_outcome res = inl err) <->
  (exists e, res = inl e) \/
  (exists header login,
      res = inr (header, login) /\
      hasDeleteScope (JS.opt_or_else header "") = false).
Proof.
  unfold verify_outcome, verify_try.
  destruct res as [e | [header login]].
  - split; intros _; [left; now exists e | eexists; reflexivity].
  - destruct (hasDeleteScope (JS.opt_or_else header "")) eqn:Hs; simpl.
    + split.
      * intros [err H]. discriminate.
      * intros [[e H] | (h & l & H & H')]; [discriminate|].
        injection H as <- <-. congruence.
    + split; intros _; [right; now exists header, login | eexists; reflexivity].
Qed.
End Verifier.

(** ** The guard of the batch entry point *)

(** C2.  When no item of the catalog is selected, [handleDeleteSelected]
    ends with the nothing-selected error shown, the confirmation view still
    closed or open as it was, no event added to the network log and the
    catalog, hence every [deleteStatus], as it was: the component changes
    by that one notification only. *)
Theorem nothing_selected_no_effect (w : World) :
  (forall r, In r (repositories (ui w)) -> is_selected r = false) ->
  handleDeleteSelected w
  = on_ui (toast (toast_error "Please select repositories to delete")) w /\
  toasts (ui (handleDeleteSelected w))
  = toasts (ui w) ++ [toast_error "Please select repositories to delete"] /\
  network (handleDeleteSelected w) = network w /\
  repositories (ui (handleDeleteSelected w)) = repositories (ui w) /\
  map deleteStatus (repositories (ui (handleDeleteSelected w)))
  = map deleteStatus (repositories (ui w)) /\
  deleteConfirmationOpen (ui (handleDeleteSelected w))
  = deleteConfirmationOpen (ui w).
Proof.
  intros Hnone.
  assert (E : handleDeleteSelected w
              = on_ui (toast (toast_error "Please select repositories to delete")) w).
  { unfold handleDeleteSelected. now rewrite (filter_nothing _ _ Hnone). }
  rewrite E. repeat split.
Qed.

Lemma nothing_selected_no_effect_witness :
  toasts (ui (handleDeleteSelected (worldOf [repoA; repoB])))
  = [toast_error "Please select repositories to delete"] /\
  network (handleDeleteSelected (worldOf [repoA; repoB])) = [].
Proof.
  assert (H : forall r, In r (repositories (ui (worldOf [repoA; repoB])))
                        -> is_selected r = false).
  { intros r Hr. vm_compute in Hr. destruct Hr as [<- | [<- | []]]; reflexivity. }
  destruct (nothing_selected_no_effect (worldOf [repoA; repoB]) H)
    as (_ & Ht & Hn & _).
  split; [exact Ht | exact Hn].
Defined.

(** ** The pre-flight phase of a batch *)

Section Preflight.
Context {P : Platform} (R : Remote).

Lemma confirmDelete_eq (w : World) :
  confirmDelete R w
  = on_ui (setDeleteInProgress false)
      (let w1 := record [Sent GET_user;
                         Settled GET_user
                           (failure_of (respond_user R (token (ui w)) (network w)))]
                   (confirm_prologue w) in
       match snd (verifyTokenPermissions R (token (ui w)) w) with
       | inr username =>
           report R (runBatch R (token (ui w)) username
                       (filter is_selected (repositories (ui w))) w1)
       | inl err =>
           on_ui (toast (toast_error (JS.message err)))
             (on_ui (setError (JS.message err)) w1)
       end).
Proof. reflexivity. Qed.
End Preflight.

(** ** Network logs *)

Lemma deletions_app (l1 l2 : list Event) :
  deletions (l1 ++ l2) = deletions l1 ++ deletions l2.
Proof.
  induction l1 as [|e l1 IH]; simpl; [reflexivity|].
  destruct e as [[| |owner repo]| |]; simpl; now rewrite IH.
Qed.

Lemma lookups_app (l1 l2 : list Event) :
  lookups (l1 ++ l2) = (lookups l1 + lookups l2)%nat.
Proof.
  induction l1 as [|e l1 IH]; simpl; [reflexivity|].
  destruct e as [[| |owner repo]| |]; simpl; now rewrite IH.
Qed.

Lemma listings_app (l1 l2 : list Event) :
  listings (l1 ++ l2) = (listings l1 + listings l2)%nat.
Proof.
  induction l1 as [|e l1 IH]; simpl; [reflexivity|].
  destruct e as [[| |owner repo]| |]; simpl; now rewrite IH.
Qed.

Lemma Request_eqb_refl (r : Request) : Request_eqb r r = true.
Proof.
  destruct r; simpl; rewrite ?Z.eqb_refl, ?String.eqb_refl; reflexivity.
Qed.

Lemma awaiting_app (l1 l2 : list Event) (i : option Request) :
  awaiting i (l1 ++ l2)
  = match awaiting i l1 with
    | Some j => awaiting j l2
    | None => None
    end.
Proof.
  revert i. induction l1 as [|e l1 IH]; intros i; simpl; [reflexivity|].
  destruct e as [r|r fl|ms].
  - destruct i; [reflexivity | apply IH].
  - destruct i as [r'|]; [|reflexivity].
    destruct (Request_eqb r r'); [apply IH | reflexivity].
  - apply IH.
Qed.

Lemma sequential_app (l1 l2 : list Event) :
  sequential l1 -> sequential l2 -> sequential (l1 ++ l2).
Proof.
  unfold sequential. intros H1 H2. now rewrite awaiting_app, H1.
Qed.

Lemma sequential_exchange (r : Request) (fl : option JS.Error) :
  sequential [Sent r; Settled r fl].
Proof. unfold sequential. simpl. now rewrite Request_eqb_refl. Qed.

Lemma sequential_delete_events (u : string) (repo : Repository)
  (res : option JS.Error) :
  sequential (delete_events u repo res).
Proof.
  unfold delete_events. apply sequential_app.
  - apply sequential_exchange.
  - destruct res; reflexivity.
Qed.

Section BatchLog.
Variable u : string.

Lemma sequential_batch_events (outs : list (Repository * option JS.Error)) :
  sequential (batch_events u outs).
Proof.
  induction outs as [|o outs IH]; [reflexivity|].
  change (batch_events u (o :: outs))
    with (delete_events u (fst o) (snd o) ++ batch_events u outs).
  apply sequential_app.
  - apply sequential_delete_events.
  - exact IH.
Qed.

Lemma deletions_batch_events (outs : list (Repository * option JS.Error)) :
  deletions (batch_events u outs) = map (fun o => name (fst o)) outs.
Proof.
  induction outs as [|[repo res] outs IH]; [reflexivity|].
  change (batch_events u ((repo, res) :: outs))
    with (delete_events u repo res ++ batch_events u outs).
  rewrite deletions_app, IH.
  destruct res; reflexivity.
Qed.

Lemma lookups_batch_events (outs : list (Repository * option JS.Error)) :
  lookups (batch_events u outs) = O.
Proof.
  induction outs as [|[repo res] outs IH]; [reflexivity|].
  change (batch_events u ((repo, res) :: outs))
    with (delete_events u repo res ++ batch_events u outs).
  rewrite lookups_app, IH.
  destruct res; reflexivity.
Qed.

Lemma listings_batch_events (outs : list (Repository * option JS.Error)) :
  listings (batch_events u outs) = O.
Proof.
  induction outs as [|[repo res] outs IH]; [reflexivity|].
  change (batch_events u ((repo, res) :: outs))
    with (delete_events u repo res ++ batch_events u outs).
  rewrite listings_app, IH.
  destruct res; reflexivity.
Qed.
End BatchLog.

Section FetchLog.
Context (R : Remote) (tok : string) (log : list Event).

Lemma sequential_fetch_events : sequential (fetch_events R tok log).
Proof.
  unfold fetch_events. destruct (verify_outcome _).
  - apply sequential_exchange.
  - apply sequential_app; apply sequential_exchange.
Qed.

Lemma deletions_fetch_events : deletions (fetch_events R tok log) = [].
Proof. unfold fetch_events. destruct (verify_outcome _); reflexivity. Qed.

Lemma lookups_fetch_events : lookups (fetch_events R tok log) = 1%nat.
Proof. unfold fetch_events. destruct (verify_outcome _); reflexivity. Qed.

Lemma listings_fetch_events :
  listings (fetch_events R tok log)
  = match verify_outcome (respond_user R tok log) with
    | inl _ => O
    | inr _ => 1%nat
    end.
Proof. unfold fetch_events. destruct (verify_outcome _); reflexivity. Qed.
End FetchLog.

(** ** The fetcher, step by step *)

Section Fetcher.
Context {P : Platform} (R : Remote).

Lemma network_fetchRepositories (w : World) :
  network (fetchRepositories R w)
  = network w ++ fetch_events R (token (ui w)) (network w).
Proof.
  unfold fetchRepositories, fetch_events.
  rewrite !verifyTokenPermissions_on_ui, verifyTokenPermissions_eq.
  cbn [fst snd ui on_ui token setSuccess setError setLoading network record].
  destruct (verify_outcome _) as [err | username]; [reflexivity|].
  unfold request_repos. cbn [network record on_ui].
  destruct (respond_repos R _ _); cbn; now rewrite <- app_assoc.
Qed.

(** The catalog after a fetch: the listing with the component's fields
    added, or nothing. *)
Lemma repositories_fetchRepositories (w : World) :
  repositories (ui (fetchRepositories R w))
  = match verify_outcome (respond_user R (token (ui w)) (network w)) with
    | inl _ => []
    | inr _ =>
        match respond_repos R (token (ui w))
                (network w ++ [Sent GET_user;
                               Settled GET_user
                                 (failure_of (respond_user R (token (ui w)) (network w)))])
        with
        | inl _ => []
        | inr data => map of_api data
        end
    end.
Proof.
  unfold fetchRepositories.
  rewrite !verifyTokenPermissions_on_ui, verifyTokenPermissions_eq.
  cbn [fst snd ui on_ui token setSuccess setError setLoading network record].
  destruct (verify_outcome _) as [err | username].
  - cbn. now autorewrite with state.
  - unfold request_repos. cbn [network record on_ui].
    destruct (respond_repos R _ _); cbn; now autorewrite with state.
Qed.
End Fetcher.

(** ** The loop, step by step *)

Section Loop.
Context {P : Platform} (R : Remote).
Variables tok u : string.

Lemma deleteOne_eq (repo : Repository) (b : Batch) :
  let res := respond_delete R tok (network (world b)) u (name repo) in
  network (world (deleteOne R tok u repo b))
  = network (world b) ++ delete_events u repo res /\
  repositories (ui (world (deleteOne R tok u repo b)))
  = settle_item (repo, res) (repositories (ui (world b))) /\
  token (ui (world (deleteOne R tok u repo b))) = token (ui (world b)) /\
  successCount (deleteOne R tok u repo b)
  = (successCount b + (if failed (repo, res) then 0 else 1))%nat /\
  failureCount (deleteOne R tok u repo b)
  = (failureCount b + (if failed (repo, res) then 1 else 0))%nat.
Proof.
  unfold deleteOne, request_delete, settle_item, settle_one, delete_events,
    kept_message, failed.
  cbv zeta. destruct (respond_delete R tok _ u (name repo)) as [err|];
    cbn; autorewrite with state; rewrite <- ?app_assoc;
    repeat split; lia.
Qed.

Lemma deleteLoop_eq (sel : list Repository) (b : Batch) :
  let outs := outcomes R tok u sel (network (world b)) in
  network (world (deleteLoop R tok u sel b))
  = network (world b) ++ batch_events u outs /\
  repositories (ui (world (deleteLoop R tok u sel b)))
  = fold_left (fun l o => settle_item o l) outs (repositories (ui (world b))) /\
  token (ui (world (deleteLoop R tok u sel b))) = token (ui (world b)) /\
  successCount (deleteLoop R tok u sel b)
  = (successCount b + List.length (filter (fun o => negb (failed o)) outs))%nat /\
  failureCount (deleteLoop R tok u sel b)
  = (failureCount b + List.length (filter failed outs))%nat.
Proof.
  revert b. induction sel as [|repo sel IH]; intros b; cbv zeta.
  - simpl. rewrite app_nil_r. repeat split; lia.
  - destruct (deleteOne_eq repo b) as (Hn & Hr & Ht & Hs & Hf).
    destruct (IH (deleteOne R tok u repo b)) as (Hn' & Hr' & Ht' & Hs' & Hf').
    cbv zeta in *. simpl deleteLoop. simpl outcomes.
    rewrite Hn in Hn', Hr', Hs', Hf'.
    rewrite Hn', Hr', Ht', Hs', Hf', Hr, Ht, Hs, Hf.
    change (batch_events u (?o :: ?outs))
      with (delete_events u (fst o) (snd o) ++ batch_events u outs).
    rewrite <- app_assoc.
    destruct (respond_delete R tok (network (world b)) u (name repo)) as [err|].
    + cbn [fst snd fold_left filter].
      change (failed (repo, Some err)) with true.
      cbn [negb List.length]. repeat split; lia.
    + cbn [fst snd fold_left filter].
      change (failed (repo, None)) with false.
      cbn [negb List.length]. repeat split; lia.
Qed.

Lemma map_fst_outcomes (sel : list Repository) (log : list Event) :
  map fst (outcomes R tok u sel log) = sel.
Proof.
  revert log. induction sel as [|repo sel IH]; intros log; simpl.
  - reflexivity.
  - now rewrite IH.
Qed.
End Loop.

(** ** A batch run, step by step *)

Section Run.
Context {P : Platform} (R : Remote).

Lemma runBatch_eq (tok u : string) (sel : list Repository) (w : World) :
  let outs := outcomes R tok u sel (network w) in
  network (world (runBatch R tok u sel w)) = network w ++ batch_events u outs /\
  repositories (ui (world (runBatch R tok u sel w)))
  = fold_left (fun l o => settle_item o l) outs (markPending (repositories (ui w))) /\
  token (ui (world (runBatch R tok u sel w))) = token (ui w) /\
  successCount (runBatch R tok u sel w)
  = List.length (filter (fun o => negb (failed o)) outs) /\
  failureCount (runBatch R tok u sel w) = List.length (filter failed outs).
Proof.
  unfold runBatch. cbv zeta.
  destruct (deleteLoop_eq R tok u sel
              (mkBatch (on_ui (setRepositories markPending) w) 0 0))
    as (Hn & Hr & Ht & Hs & Hf).
  cbn [world network on_ui ui successCount failureCount] in *.
  autorewrite with state in *.
  rewrite Hn, Hr, Ht, Hs, Hf. repeat split.
Qed.

Lemma network_report (b : Batch) :
  network (report R b)
  = network (world b)
    ++ (if (0 <? failureCount b)%nat then []
        else fetch_events R (token (ui (world b))) (network (world b))).
Proof.
  unfold report. destruct (0 <? failureCount b)%nat.
  - cbn. now rewrite app_nil_r.
  - now rewrite network_fetchRepositories.
Qed.

(** What a run of [confirmDelete] adds to the network log. *)
Lemma network_confirmDelete (w : World) :
  let tok := token (ui w) in
  let lookup := [Sent GET_user;
                 Settled GET_user (failure_of (respond_user R tok (network w)))] in
  network (confirmDelete R w)
  = network w ++ lookup
    ++ match snd (verifyTokenPermissions R tok w) with
       | inl _ => []
       | inr u =>
           let outs := outcomes R tok u (filter is_selected (repositories (ui w)))
                         (network w ++ lookup) in
           batch_events u outs
           ++ (if (0 <? List.length (filter failed outs))%nat then []
               else fetch_events R tok ((network w ++ lookup) ++ batch_events u outs))
       end.
Proof.
  cbv zeta. rewrite confirmDelete_eq. cbv zeta.
  destruct (snd (verifyTokenPermissions R (token (ui w)) w)) as [err | u].
  - reflexivity.
  - cbn [network on_ui]. rewrite network_report.
    match goal with
    | |- context [runBatch R ?t u ?s ?w1] =>
        destruct (runBatch_eq t u s w1) as (Hn & _ & Ht & _ & Hf)
    end.
    cbv zeta in *. cbn [network record confirm_prologue on_ui ui] in *.
    rewrite Hn, Ht, Hf. cbn [token setSuccess setError setDeleteInProgress
                               setDeleteConfirmationOpen].
    now rewrite <- !app_assoc.
Qed.
End Run.
(** C3.  A batch run starts with the identity lookup: it is the first
    exchange the run adds to the network log, so whatever the run deletes
    is requested after it.  Verification fails exactly when the lookup is
    rejected or the delete scope is missing from the scopes it returns;
    when it fails the run adds nothing else to the log, so no deletion is
    requested, the catalog is what it was, and the message of the failure
    is shown as the error and as a notification. *)
Theorem preflight_verifies_or_aborts {P : Platform} (R : Remote) (w : World) :
  (exists rest,
      network (confirmDelete R w)
      = network w
        ++ Sent GET_user
           :: Settled GET_user
                (failure_of (respond_user R (token (ui w)) (network w)))
           :: rest) /\
  ((exists err, snd (verifyTokenPermissions R (token (ui w)) w) = inl err) <->
   (exists e, respond_user R (token (ui w)) (network w) = inl e) \/
   (exists header login,
       respond_user R (token (ui w)) (network w) = inr (header, login) /\
       hasDeleteScope (JS.opt_or_else header "") = false)) /\
  (forall err,
      snd (verifyTokenPermissions R (token (ui w)) w) = inl err ->
      network (confirmDelete R w)
      = network w
        ++ [Sent GET_user;
            Settled GET_user
              (failure_of (respond_user R (token (ui w)) (network w)))] /\
      deletions (network (confirmDelete R w)) = deletions (network w) /\
      repositories (ui (confirmDelete R w)) = repositories (ui w) /\
      error (ui (confirmDelete R w)) = JS.message err /\
      toasts (ui (confirmDelete R w))
      = toasts (ui w) ++ [toast_error (JS.message err)]).
Proof.
  split; [|split].
  - pose proof (network_confirmDelete R w) as H. cbv zeta in H.
    rewrite H. eexists. reflexivity.
  - apply verify_outcome_fails.
  - intros err Herr.
    pose proof (network_confirmDelete R w) as H. cbv zeta in H.
    rewrite Herr in H. rewrite H.
    rewrite confirmDelete_eq, Herr.
    split; [reflexivity|]. split; [|repeat split].
    rewrite deletions_app. simpl. now rewrite app_nil_r.
Qed.

Lemma preflight_verifies_or_aborts_witness :
  network (confirmDelete (P := ordinalPlatform) badRemote (worldOf [repoA; repoC]))
  = [Sent GET_user;
     Settled GET_user (Some (JS.mkError (Some 401) "Bad credentials" None))] /\
  repositories (ui (confirmDelete (P := ordinalPlatform) badRemote (worldOf [repoA; repoC])))
  = [repoA; repoC] /\
  error (ui (confirmDelete (P := ordinalPlatform) badRemote (worldOf [repoA; repoC])))
  = "Invalid token. Please check your token and try again.".
Proof.
  destruct (preflight_verifies_or_aborts (P := ordinalPlatform) badRemote
              (worldOf [repoA; repoC])) as (_ & _ & H).
  destruct (H (JS.new_Error "Invalid token. Please check your token and try again.")
              eq_refl) as (Hn & _ & Hr & He & _).
  split; [exact Hn | split; [exact Hr | exact He]].
Defined.

(** ** The earlier component, step by step *)

Section LegacyRun.
Context (R : Remote).

Lemma legacy_network_fetchRepositories (w : World) :
  network (Legacy.fetchRepositories R w)
  = network w ++ fetch_events R (token (ui w)) (network w).
Proof.
  unfold Legacy.fetchRepositories, fetch_events.
  rewrite !verifyTokenPermissions_on_ui, verifyTokenPermissions_eq.
  cbn [fst snd ui on_ui token setSuccess setError setLoading network record].
  destruct (verify_outcome _) as [err | username]; [reflexivity|].
  unfold request_repos. cbn [network record on_ui].
  destruct (respond_repos R _ _); cbn; now rewrite <- app_assoc.
Qed.

Lemma legacy_repositories_fetchRepositories (w : World) :
  repositories (ui (Legacy.fetchRepositories R w))
  = match verify_outcome (respond_user R (token (ui w)) (network w)) with
    | inl _ => []
    | inr _ =>
        match respond_repos R (token (ui w))
                (network w ++ [Sent GET_user;
                               Settled GET_user
                                 (failure_of (respond_user R (token (ui w)) (network w)))])
        with
        | inl _ => []
        | inr data => map of_api data
        end
    end.
Proof.
  unfold Legacy.fetchRepositories.
  rewrite !verifyTokenPermissions_on_ui, verifyTokenPermissions_eq.
  cbn [fst snd ui on_ui token setSuccess setError setLoading network record].
  destruct (verify_outcome _) as [err | username]; [reflexivity|].
  unfold request_repos. cbn [network record on_ui].
  destruct (respond_repos R _ _); reflexivity.
Qed.

Lemma legacy_deleteOne_eq (tok u : string) (repo : Repository) (b : Batch) :
  let res := respond_delete R tok (network (world b)) u (name repo) in
  network (world (Legacy.deleteOne R tok u repo b))
  = network (world b) ++ delete_events u repo res /\
  token (ui (world (Legacy.deleteOne R tok u repo b))) = token (ui (world b)) /\
  failureCount (Legacy.deleteOne R tok u repo b)
  = (failureCount b + (if failed (repo, res) then 1 else 0))%nat.
Proof.
  unfold Legacy.deleteOne, request_delete, delete_events, failed.
  cbv zeta. destruct (respond_delete R tok _ u (name repo)) as [err|];
    cbn; rewrite <- ?app_assoc; repeat split; lia.
Qed.

Lemma legacy_deleteLoop_eq (tok u : string) (sel : list Repository) (b : Batch) :
  let outs := outcomes R tok u sel (network (world b)) in
  network (world (Legacy.deleteLoop R tok u sel b))
  = network (world b) ++ batch_events u outs /\
  token (ui (world (Legacy.deleteLoop R tok u sel b))) = token (ui (world b)) /\
  failureCount (Legacy.deleteLoop R tok u sel b)
  = (failureCount b + List.length (filter failed outs))%nat.
Proof.
  revert b. induction sel as [|repo sel IH]; intros b; cbv zeta.
  - simpl. rewrite app_nil_r. repeat split; lia.
  - destruct (legacy_deleteOne_eq tok u repo b) as (Hn & Ht & Hf).
    destruct (IH (Legacy.deleteOne R tok u repo b)) as (Hn' & Ht' & Hf').
    cbv zeta in *. simpl Legacy.deleteLoop. simpl outcomes.
    rewrite Hn in Hn', Hf'.
    rewrite Hn', Ht', Hf', Ht, Hf.
    change (batch_events u (?o :: ?outs))
      with (delete_events u (fst o) (snd o) ++ batch_events u outs).
    rewrite <- app_assoc.
    destruct (respond_delete R tok (network (world b)) u (name repo)) as [err|].
    + cbn [fst snd filter]. change (failed (repo, Some err)) with true.
      cbn [List.length]. repeat split; lia.
    + cbn [fst snd filter]. change (failed (repo, None)) with false.
      repeat split; lia.
Qed.

Lemma legacy_network_report (b : Batch) :
  network (Legacy.report R b)
  = network (world b)
    ++ (if (0 <? failureCount b)%nat then []
        else fetch_events R (token (ui (world b))) (network (world b))).
Proof.
  unfold Legacy.report. destruct (0 <? failureCount b)%nat.
  - cbn. now rewrite app_nil_r.
  - now rewrite legacy_network_fetchRepositories.
Qed.

(** What a call of the earlier [handleDeleteSelected] adds to the network
    log once the user has confirmed. *)
Lemma legacy_network_handleDeleteSelected (ask : string -> bool) (w : World) :
  let tok := token (ui w) in
  let sel := filter is_selected (repositories (ui w)) in
  let lookup := [Sent GET_user;
                 Settled GET_user (failure_of (respond_user R tok (network w)))] in
  network (Legacy.handleDeleteSelected R ask w)
  = network w
    ++ (if (List.length sel =? 0)%nat then []
        else if negb (ask (Legacy.prompt (List.length sel)))
        then []
        else lookup
             ++ match snd (verifyTokenPermissions R tok w) with
                | inl _ => []
                | inr u =>
                    let outs := outcomes R tok u sel (network w ++ lookup) in
                    batch_events u outs
                    ++ (if (0 <? List.length (filter failed outs))%nat then []
                        else fetch_events R tok
                               ((network w ++ lookup) ++ batch_events u outs))
                end).
Proof.
  cbv zeta. unfold Legacy.handleDeleteSelected.
  destruct (List.length _ =? 0)%nat; [cbn; now rewrite app_nil_r|].
  destruct (negb _); [now rewrite app_nil_r|].
  rewrite !verifyTokenPermissions_on_ui, verifyTokenPermissions_eq.
  cbn [fst snd ui on_ui token setSuccess setError setDeleteInProgress network].
  change (snd (verifyTokenPermissions R (token (ui w)) w))
    with (verify_outcome (respond_user R (token (ui w)) (network w))).
  destruct (verify_outcome _) as [err | u]; [reflexivity|].
  cbn [network on_ui]. rewrite legacy_network_report.
  match goal with
  | |- context [Legacy.deleteLoop R ?t u ?s ?b] =>
      destruct (legacy_deleteLoop_eq t u s b) as (Hn & Ht & Hf)
  end.
  cbv zeta in *. cbn [world network record on_ui ui failureCount] in *.
  rewrite Hn, Ht, Hf.
  cbn [token Legacy.setRepositories upd_repositories setSuccess setError
         setDeleteInProgress].
  now rewrite <- !app_assoc.
Qed.
End LegacyRun.

(** ** The order of a batch *)

Lemma deletions_of_run (R : Remote) (tok : string) (sel : list Repository)
  (log0 : list Event) (v : JS.Error + string) :
  let lookup := [Sent GET_user;
                 Settled GET_user (failure_of (respond_user R tok log0))] in
  let rest :=
    match v with
    | inl _ => []
    | inr u =>
        let outs := outcomes R tok u sel (log0 ++ lookup) in
        batch_events u outs
        ++ (if (0 <? List.length (filter failed outs))%nat then []
            else fetch_events R tok ((log0 ++ lookup) ++ batch_events u outs))
    end in
  sequential (lookup ++ rest) /\
  deletions (lookup ++ rest)
  = match v with inr _ => map name sel | inl _ => [] end.
Proof.
  cbv zeta. split.
  - apply sequential_app; [apply sequential_exchange|].
    destruct v as [err | u].
    + reflexivity.
    + apply sequential_app; [apply sequential_batch_events|].
      destruct (0 <? _)%nat; [reflexivity | apply sequential_fetch_events].
  - rewrite deletions_app. simpl deletions at 1. simpl app at 1.
    destruct v as [err | u].
    + reflexivity.
    + rewrite deletions_app, deletions_batch_events.
      rewrite <- (map_map fst name), map_fst_outcomes.
      destruct (0 <? _)%nat; [|rewrite deletions_fetch_events];
        now rewrite app_nil_r.
Qed.

(** C1, as the code has it.  What a run of [confirmDelete] adds to the
    network log is sequential: every request settles before the next one
    goes out and none is left in flight.  When the credential is verified
    the deletions requested are those of the selected items in the order
    of the catalog, one per item; when it is not, there is none.  The
    same holds for the batch that the earlier [handleDeleteSelected] runs
    once the user has confirmed. *)
Theorem deletes_sequential_in_catalog_order {P : Platform} (R : Remote) (w : World) :
  (exists log,
      network (confirmDelete R w) = network w ++ log /\
      sequential log /\
      deletions log
      = match snd (verifyTokenPermissions R (token (ui w)) w) with
        | inr _ => map name (filter is_selected (repositories (ui w)))
        | inl _ => []
        end) /\
  (forall ask : string -> bool,
      exists log,
        network (Legacy.handleDeleteSelected R ask w) = network w ++ log /\
        sequential log /\
        deletions log
        = if ask (Legacy.prompt
                    (List.length (filter is_selected (repositories (ui w)))))
          then match snd (verifyTokenPermissions R (token (ui w)) w) with
               | inr _ => map name (filter is_selected (repositories (ui w)))
               | inl _ => []
               end
          else []).
Proof.
  split.
  - pose proof (network_confirmDelete R w) as H. cbv zeta in H.
    eexists. split; [exact H|]. apply deletions_of_run.
  - intros ask.
    pose proof (legacy_network_handleDeleteSelected R ask w) as H. cbv zeta in H.
    remember (snd (verifyTokenPermissions R (token (ui w)) w)) as v eqn:Hv.
    clear Hv. eexists. split; [exact H|].
    destruct (filter is_selected (repositories (ui w))) as [|r sel] eqn:Hsel.
    + split; [reflexivity|]. cbn [List.length Nat.eqb deletions map].
      destruct (ask _); [|reflexivity]. now destruct v.
    + cbn [List.length Nat.eqb].
      destruct (ask _); cbn [negb]; [|split; reflexivity].
      apply deletions_of_run.
Qed.

(** Ticking beta and then alpha on the catalog [alpha; beta]: the run
    deletes alpha first. *)
Lemma selection_order_refuted :
  (let st := clickCheckbox (P := ordinalPlatform) repoA
               (clickCheckbox (P := ordinalPlatform) repoB
                  (stateOf [repoA; repoB])) in
   deletions (network (confirmDelete (P := ordinalPlatform) goodRemote
                         (mkWorld st [])))
   = ["alpha"; "beta"]) /\
  ~ deletes_in_selection_order.
Proof.
  split; [reflexivity|].
  intros H.
  specialize (H goodRemote [repoA; repoB] [repoB; repoA] "octocat").
  assert (Hd : NoDup [repoB; repoA]).
  { constructor.
    - intros [E | []]. discriminate E.
    - constructor; [intros [] | constructor]. }
  assert (Hi : incl [repoB; repoA] [repoA; repoB]).
  { intros r [<- | [<- | []]]; simpl; auto. }
  assert (Hs : forall r, In r [repoA; repoB] -> is_selected r = false).
  { intros r [<- | [<- | []]]; reflexivity. }
  specialize (H Hd Hi Hs eq_refl).
  vm_compute in H. discriminate H.
Qed.

(** ** The catalog along a batch *)

Lemma id_settle_one (o : Repository * option JS.Error) (r : Repository) :
  id (settle_one o r) = id r.
Proof.
  unfold settle_one. destruct (id r =? id (fst o)); [|reflexivity].
  destruct (snd o); reflexivity.
Qed.

Lemma fold_settle_item (outs : list (Repository * option JS.Error))
  (l : list Repository) :
  fold_left (fun l o => settle_item o l) outs l
  = map (fun r => fold_left (fun r o => settle_one o r) outs r) l.
Proof.
  revert l. induction outs as [|o outs IH]; intros l; simpl.
  - now rewrite map_id.
  - rewrite IH. unfold settle_item. rewrite map_map. reflexivity.
Qed.

Lemma id_fold_settle_one (outs : list (Repository * option JS.Error))
  (r : Repository) :
  id (fold_left (fun r o => settle_one o r) outs r) = id r.
Proof.
  revert r. induction outs as [|o outs IH]; intros r; simpl.
  - reflexivity.
  - now rewrite IH, id_settle_one.
Qed.

Lemma fold_settle_one_untouched (outs : list (Repository * option JS.Error))
  (r : Repository) :
  (forall o, In o outs -> id (fst o) <> id r) ->
  fold_left (fun r o => settle_one o r) outs r = r.
Proof.
  revert r. induction outs as [|o outs IH]; intros r H; simpl.
  - reflexivity.
  - assert (E : settle_one o r = r).
    { unfold settle_one. destruct (Z.eqb_spec (id r) (id (fst o))) as [e|]; [|reflexivity].
      exfalso. apply (H o); [now left | now symmetry]. }
    rewrite E. apply IH. intros o' Ho'. apply H. now right.
Qed.

Lemma fold_settle_one_touched (outs : list (Repository * option JS.Error))
  (o : Repository * option JS.Error) (r : Repository) :
  NoDup (map (fun o => id (fst o)) outs) ->
  In o outs ->
  id r = id (fst o) ->
  fold_left (fun r o => settle_one o r) outs r = settle_one o r.
Proof.
  revert r. induction outs as [|o' outs IH]; intros r Hnd Hin Hid; simpl.
  - destruct Hin.
  - inversion Hnd as [|? ? Hnotin Hnd']; subst.
    destruct Hin as [-> | Hin].
    + apply fold_settle_one_untouched.
      intros o'' Ho'' E. apply Hnotin.
      rewrite id_settle_one, Hid in E. rewrite <- E.
      now apply (in_map (fun o => id (fst o))).
    + assert (E : settle_one o' r = r).
      { unfold settle_one.
        destruct (Z.eqb_spec (id r) (id (fst o'))) as [e|]; [|reflexivity].
        exfalso. apply Hnotin. rewrite <- e, Hid.
        now apply (in_map (fun o => id (fst o))). }
      rewrite E. now apply IH.
Qed.

Lemma map_id_markPending (l : list Repository) :
  map id (markPending l) = map id l.
Proof.
  unfold markPending. rewrite map_map. apply map_ext.
  intros r. now destruct (is_selected r).
Qed.

Lemma NoDup_map_filter {A B : Type} (g : A -> B) (p : A -> bool) (l : list A) :
  NoDup (map g l) -> NoDup (map g (filter p l)).
Proof.
  induction l as [|a l IH]; simpl; intros H; [constructor|].
  inversion H as [|? ? Hnotin Hnd]; subst.
  destruct (p a); simpl; [constructor|]; auto.
  intros Hin. apply Hnotin. apply in_map_iff in Hin as (x & <- & Hx).
  apply in_map. now apply filter_In in Hx.
Qed.

Lemma length_filter_failed (outs : list (Repository * option JS.Error)) :
  (List.length (filter (fun o => negb (failed o)) outs)
   + List.length (filter failed outs))%nat = List.length outs.
Proof.
  induction outs as [|o outs IH]; simpl; [reflexivity|].
  destruct (failed o); simpl; lia.
Qed.

Lemma NoDup_outcome_ids {P : Platform} (R : Remote) (tok u : string)
  (catalog : list Repository) (log : list Event) :
  NoDup (map id catalog) ->
  NoDup (map (fun o => id (fst o))
           (outcomes R tok u (filter is_selected catalog) log)).
Proof.
  intros H. rewrite <- (map_map fst id), map_fst_outcomes.
  now apply NoDup_map_filter.
Qed.

(** ** The outcome of a batch *)

(** C4.  Take a run of [confirmDelete] on a catalog with unique
    identifiers whose credential is verified, and let [outs] pair every
    selected item, in the order of the loop, with the answer of the remote
    to its deletion.  Every selected item is attempted, whatever the
    answers before it.  When the loop ends [successCount] is the number
    of selected items less the number of rejected deletions and
    [failureCount] is that number; the catalog has the items it had; the
    item of a rejected deletion has status [error] and the message of the
    rejection, or the fallback; the item of an accepted deletion has
    status [success].  The run then goes through [fetchRepositories]
    exactly when no deletion was rejected: its log has the pre-flight
    identity lookup and, in that case only, the one that opens a fetch;
    otherwise it has no listing request, the catalog stays as the loop
    left it and the error names both counts. *)
Theorem batch_outcome {P : Platform} (R : Remote) (w : World) (u : string) :
  NoDup (map id (repositories (ui w))) ->
  snd (verifyTokenPermissions R (token (ui w)) w) = inr u ->
  let tok := token (ui w) in
  let sel := filter is_selected (repositories (ui w)) in
  let w1 := fst (verifyTokenPermissions R tok (confirm_prologue w)) in
  let outs := outcomes R tok u sel (network w1) in
  let b := runBatch R tok u sel w1 in
  map fst outs = sel /\
  successCount b = (List.length sel - List.length (filter failed outs))%nat /\
  failureCount b = List.length (filter failed outs) /\
  map id (repositories (ui (world b))) = map id (repositories (ui w)) /\
  (forall repo err r,
      In (repo, Some err) outs ->
      In r (repositories (ui (world b))) -> id r = id repo ->
      deleteStatus r = Some DeleteStatus.error /\
      errorMessage r = Some (kept_message err)) /\
  (forall repo r,
      In (repo, None) outs ->
      In r (repositories (ui (world b))) -> id r = id repo ->
      deleteStatus r = Some DeleteStatus.success) /\
  confirmDelete R w = on_ui (setDeleteInProgress false) (report R b) /\
  (exists log,
      network (confirmDelete R w) = network w ++ log /\
      deletions log = map name sel /\
      lookups log = (if (0 <? List.length (filter failed outs))%nat
                     then 1 else 2)%nat /\
      (filter failed outs <> [] -> listings log = O)) /\
  (filter failed outs = [] ->
   report R b
   = fetchRepositories R
       (on_ui (setSuccess "All selected repositories were deleted successfully!")
          (world b))) /\
  (filter failed outs <> [] ->
   repositories (ui (confirmDelete R w)) = repositories (ui (world b)) /\
   error (ui (confirmDelete R w))
   = ("Failed to delete " ++ JS.show_nat (List.length (filter failed outs))
      ++ " repositories. "
      ++ JS.show_nat (List.length sel - List.length (filter failed outs))
      ++ " repositories were deleted successfully.")%string).
Proof.
  intros Hnd Hv tok sel w1 outs b.
  destruct (runBatch_eq R tok u sel w1) as (Hn & Hr & Ht & Hs & Hf).
  fold outs b in Hn, Hr, Ht, Hs, Hf.
  assert (Hsel : map fst outs = sel) by apply map_fst_outcomes.
  assert (Hlen : List.length outs = List.length sel).
  { now rewrite <- Hsel, length_map. }
  assert (Hsc : successCount b
                = (List.length sel - List.length (filter failed outs))%nat).
  { pose proof (length_filter_failed outs). lia. }
  assert (Hids : NoDup (map (fun o => id (fst o)) outs)).
  { now apply NoDup_outcome_ids. }
  assert (Hitem : forall o r,
             In o outs -> In r (repositories (ui (world b))) ->
             id r = id (fst o) ->
             exists r0, r = settle_one o r0).
  { intros o r Ho Hr0 Hid. rewrite Hr, fold_settle_item in Hr0.
    apply in_map_iff in Hr0 as (r0 & <- & _). exists r0.
    rewrite id_fold_settle_one in Hid.
    now apply fold_settle_one_touched. }
  assert (Hc : confirmDelete R w = on_ui (setDeleteInProgress false) (report R b)).
  { rewrite confirmDelete_eq, Hv. reflexivity. }
  split; [exact Hsel|]. split; [exact Hsc|]. split; [exact Hf|].
  split; [|split; [|split; [|split; [|split; [|split]]]]].
  - rewrite Hr, fold_settle_item, map_map.
    rewrite <- (map_id_markPending (repositories (ui w))).
    apply map_ext. intros r. apply id_fold_settle_one.
  - intros repo err r Ho Hin Hid.
    destruct (Hitem (repo, Some err) r Ho Hin Hid) as (r0 & ->).
    unfold settle_one. cbn [fst snd].
    rewrite id_settle_one in Hid. apply Z.eqb_eq in Hid. cbn [fst] in Hid.
    rewrite Hid. split; reflexivity.
  - intros repo r Ho Hin Hid.
    destruct (Hitem (repo, None) r Ho Hin Hid) as (r0 & ->).
    unfold settle_one. cbn [fst snd].
    rewrite id_settle_one in Hid. apply Z.eqb_eq in Hid. cbn [fst] in Hid.
    rewrite Hid. reflexivity.
  - exact Hc.
  - pose proof (network_confirmDelete R w) as H. cbv zeta in H.
    rewrite Hv in H. eexists. split; [exact H|].
    split.
    { pose proof (deletions_of_run R tok sel (network w) (inr u)) as [_ Hd].
      exact Hd. }
    fold tok sel. change (network w ++ _) with (network w1). fold outs.
    rewrite !lookups_app, !listings_app, lookups_batch_events, listings_batch_events.
    destruct (filter failed outs) as [|o fs] eqn:HF; cbn [List.length Nat.ltb Nat.leb].
    + rewrite lookups_fetch_events. split; [reflexivity | congruence].
    + split; [reflexivity | reflexivity].
  - intros HF. unfold report. now rewrite Hf, HF.
  - intros HF. rewrite Hc. unfold report. rewrite Hf, Hsc.
    destruct (filter failed outs) as [|o fs]; [congruence|].
    split; reflexivity.
Qed.

Lemma batch_outcome_witness :
  let w := on_ui (toggleSelectAll (P := ordinalPlatform) true)
             (worldOf [repoA; repoB; repoC]) in
  let b := runBatch (P := ordinalPlatform) goodRemote "ghp_token" "octocat"
             (filter is_selected (repositories (ui w)))
             (fst (verifyTokenPermissions goodRemote "ghp_token"
                     (confirm_prologue w))) in
  successCount b = 2%nat /\ failureCount b = 1%nat /\
  map deleteStatus (repositories (ui (confirmDelete (P := ordinalPlatform) goodRemote w)))
  = [Some DeleteStatus.success; Some DeleteStatus.error; Some DeleteStatus.success].
Proof.
  intros w b.
  assert (Hnd : NoDup (map id (repositories (ui w)))) by solve_NoDup.
  destruct (batch_outcome (P := ordinalPlatform) goodRemote w "octocat" Hnd eq_refl)
    as (_ & Hs & Hf & _ & _ & _ & _ & _ & _ & Hfail).
  split; [exact Hs | split; [exact Hf|]].
  assert (HF : filter failed
                 (outcomes goodRemote (token (ui w)) "octocat"
                    (filter is_selected (repositories (ui w)))
                    (network (fst (verifyTokenPermissions
                                     goodRemote (token (ui w))
                                     (confirm_prologue w))))) <> []).
  { vm_compute. discriminate. }
  destruct (Hfail HF) as (Hr & _). rewrite Hr. reflexivity.
Defined.

(** ** What a fetch leaves in the catalog *)

Lemma fresh_of_api (data : list ApiRepository) : Forall fresh (map of_api data).
Proof.
  apply Forall_forall. intros r Hr.
  apply in_map_iff in Hr as (a & <- & _). repeat split.
Qed.

(** C10.  Whatever the catalog was, after [fetchRepositories] every item
    of the catalog has [selected] false, no [deleteStatus] and no
    [errorMessage].  When the credential is verified and the listing is
    returned, the catalog is the listing with [selected: false] added to
    every element, so nothing of the former selection or statuses remains.
    The same holds at the end of a run of [confirmDelete] in which no
    deletion was rejected, since the run ends with a fetch, and for the
    fetcher of the earlier component. *)
Theorem fetch_resets_items {P : Platform} (R : Remote) (w : World) :
  Forall fresh (repositories (ui (fetchRepositories R w))) /\
  Forall fresh (repositories (ui (Legacy.fetchRepositories R w))) /\
  (forall u data,
      snd (verifyTokenPermissions R (token (ui w)) w) = inr u ->
      respond_repos R (token (ui w))
        (network (fst (verifyTokenPermissions R (token (ui w)) w))) = inr data ->
      repositories (ui (fetchRepositories R w)) = map of_api data /\
      repositories (ui (Legacy.fetchRepositories R w)) = map of_api data) /\
  (forall u,
      snd (verifyTokenPermissions R (token (ui w)) w) = inr u ->
      failureCount
        (runBatch R (token (ui w)) u (filter is_selected (repositories (ui w)))
           (fst (verifyTokenPermissions R (token (ui w)) (confirm_prologue w))))
      = O ->
      Forall fresh (repositories (ui (confirmDelete R w)))).
Proof.
  assert (Hfresh : forall w0, Forall fresh (repositories (ui (fetchRepositories R w0)))).
  { intros w0. rewrite repositories_fetchRepositories.
    destruct (verify_outcome _); [constructor|].
    destruct (respond_repos R _ _); [constructor | apply fresh_of_api]. }
  split; [apply Hfresh | split; [|split]].
  - rewrite legacy_repositories_fetchRepositories.
    destruct (verify_outcome _); [constructor|].
    destruct (respond_repos R _ _); [constructor | apply fresh_of_api].
  - intros u data Hv Hd.
    rewrite repositories_fetchRepositories, legacy_repositories_fetchRepositories.
    cbn in Hv, Hd. now rewrite Hv, Hd.
  - intros u Hv Hf. rewrite confirmDelete_eq, Hv. cbv zeta.
    unfold report. cbn [fst verifyTokenPermissions request_user] in Hf.
    cbn [confirm_prologue on_ui network ui] in Hf.
    cbn [confirm_prologue on_ui network ui]. rewrite Hf.
    cbn [Nat.ltb Nat.leb on_ui ui]. apply Hfresh.
Qed.

Lemma fetch_resets_items_witness :
  repositories (ui (fetchRepositories (P := ordinalPlatform) goodRemote
                      (worldOf [repoB; repoC])))
  = [of_api apiA].
Proof.
  destruct (fetch_resets_items (P := ordinalPlatform) goodRemote
              (worldOf [repoB; repoC])) as (_ & _ & H & _).
  exact (proj1 (H "octocat" [apiA] eq_refl eq_refl)).
Defined.

(** ** The sort *)

Section SortFacts.
Context {A : Type} (cmp : A -> A -> Z).

Lemma sort_insert_perm (x : A) (l : list A) :
  Permutation (x :: l) (JS.sort_insert cmp x l).
Proof.
  induction l as [|y l IH]; simpl.
  - apply Permutation_refl.
  - destruct (cmp x y <=? 0).
    + apply Permutation_refl.
    + apply perm_trans with (y :: x :: l).
      * apply perm_swap.
      * now apply perm_skip.
Qed.

Lemma sort_perm (l : list A) : Permutation l (JS.sort cmp l).
Proof.
  induction l as [|x l IH]; simpl.
  - apply perm_nil.
  - apply perm_trans with (x :: JS.sort cmp l).
    + now apply perm_skip.
    + apply sort_insert_perm.
Qed.

Lemma sort_In (l : list A) (x : A) : In x (JS.sort cmp l) <-> In x l.
Proof.
  split; apply Permutation_in; [apply Permutation_sym|]; apply sort_perm.
Qed.

Hypothesis cmp_ok : consistent cmp.

Lemma consistent_flip (a b : A) : cmp a b <= 0 \/ cmp b a <= 0.
Proof. pose proof (cmp_sign cmp cmp_ok b a). lia. Qed.

Lemma consistent_zero (a b : A) : cmp a b = 0 -> cmp b a = 0.
Proof.
  pose proof (cmp_sign cmp cmp_ok a b). pose proof (cmp_sign cmp cmp_ok b a). lia.
Qed.

Lemma sort_insert_sorted (x : A) (l : list A) :
  StronglySorted (fun a b => cmp a b <= 0) l ->
  StronglySorted (fun a b => cmp a b <= 0) (JS.sort_insert cmp x l).
Proof.
  induction l as [|y l IH]; simpl; intros Hs.
  - constructor; constructor.
  - inversion Hs as [|? ? Hs' Hall]; subst.
    destruct (Z.leb_spec (cmp x y) 0) as [Hle | Hgt].
    + constructor; [exact Hs|]. constructor; [exact Hle|].
      revert Hall. apply Forall_impl. intros z Hz.
      exact (cmp_trans cmp cmp_ok x y z Hle Hz).
    + constructor; [now apply IH|].
      apply (Permutation_Forall (sort_insert_perm x l)).
      constructor; [|exact Hall].
      destruct (consistent_flip x y); [lia | assumption].
Qed.

Lemma sort_sorted (l : list A) :
  StronglySorted (fun a b => cmp a b <= 0) (JS.sort cmp l).
Proof.
  induction l as [|x l IH]; simpl.
  - constructor.
  - now apply sort_insert_sorted.
Qed.

(** Stability: the values that compare equal to a given one come out in
    the order they went in. *)
Lemma sort_insert_stable (z x : A) (l : list A) :
  filter (fun y => cmp z y =? 0) (JS.sort_insert cmp x l)
  = filter (fun y => cmp z y =? 0) (x :: l).
Proof.
  induction l as [|y l IH]; [reflexivity|].
  simpl JS.sort_insert.
  destruct (Z.leb_spec (cmp x y) 0) as [Hle | Hgt]; [reflexivity|].
  cbn [filter]. rewrite IH. cbn [filter].
  destruct (Z.eqb_spec (cmp z x) 0) as [Hzx | Hzx];
    destruct (Z.eqb_spec (cmp z y) 0) as [Hzy | Hzy]; try reflexivity.
  exfalso.
  pose proof (consistent_zero z x Hzx) as Hxz.
  pose proof (cmp_trans cmp cmp_ok x z y). lia.
Qed.

Lemma sort_stable (z : A) (l : list A) :
  filter (fun y => cmp z y =? 0) (JS.sort cmp l)
  = filter (fun y => cmp z y =? 0) l.
Proof.
  induction l as [|x l IH]; [reflexivity|].
  simpl JS.sort. rewrite sort_insert_stable. simpl. now rewrite IH.
Qed.
End SortFacts.

Lemma StronglySorted_weaken {A : Type} (R1 R2 : A -> A -> Prop) (l : list A) :
  (forall a b, R1 a b -> R2 a b) -> StronglySorted R1 l -> StronglySorted R2 l.
Proof.
  intros H. induction 1 as [|a l Hs IH Hall]; constructor.
  - exact IH.
  - revert Hall. apply Forall_impl. intros b. apply H.
Qed.

(** ** Strings *)

Lemma prefix_spec (q s : string) :
  String.prefix q s = true <-> exists post, s = (q ++ post)%string.
Proof.
  revert s. induction q as [|a q IH]; intros s.
  - destruct s; simpl; (split; [intros _; eexists; reflexivity | reflexivity]).
  - destruct s as [|b s]; simpl.
    + split; [discriminate | intros [post H]; discriminate].
    + destruct (ascii_dec a b) as [->|n].
      * rewrite IH. split; intros [post H]; exists post.
        -- now rewrite H.
        -- now injection H.
      * split; [discriminate|].
        intros [post H]. injection H as H _. now symmetry in H.
Qed.

Lemma includes_nil (q : string) :
  JS.includes "" q = String.prefix q "".
Proof. simpl. apply orb_false_r. Qed.

Lemma includes_cons (c : ascii) (s q : string) :
  JS.includes (String c s) q = String.prefix q (String c s) || JS.includes s q.
Proof. reflexivity. Qed.

Lemma includes_spec (s q : string) :
  JS.includes s q = true <-> exists pre post, s = (pre ++ q ++ post)%string.
Proof.
  induction s as [|c s IH].
  - rewrite includes_nil, prefix_spec. split.
    + intros [post H]. now exists "", post.
    + intros (pre & post & H). destruct pre; [now exists post | discriminate].
  - rewrite includes_cons, orb_true_iff, prefix_spec, IH. split.
    + intros [[post H] | (pre & post & H)].
      * now exists "", post.
      * exists (String c pre), post. simpl. now rewrite H.
    + intros (pre & post & H). destruct pre as [|c' pre]; simpl in H.
      * left. now exists post.
      * right. injection H as _ H. now exists pre, post.
Qed.

Lemma includes_empty (s : string) : JS.includes s "" = true.
Proof. apply includes_spec. now exists "", s. Qed.

(** The test of the search filter is the case-insensitive substring of
    the specification, whatever the lower-case mapping of the platform. *)
Lemma includes_toLowerCase {P : Platform} (s q : string) :
  JS.includes (toLowerCase s) (toLowerCase q) = true <-> ci_substring q s.
Proof. unfold ci_substring. apply includes_spec. Qed.

(** Where the lower-case mapping works letter by letter, as on ASCII
    text, a case-insensitive substring is a segment of the text that is
    the query up to the case of its letters. *)
Lemma toLowerCaseASCII_app (a b : string) :
  JS.toLowerCaseASCII (a ++ b)
  = (JS.toLowerCaseASCII a ++ JS.toLowerCaseASCII b)%string.
Proof.
  induction a as [|c a IH]; simpl; [reflexivity | now rewrite IH].
Qed.

Lemma toLowerCaseASCII_split (s a b : string) :
  JS.toLowerCaseASCII s = (a ++ b)%string ->
  exists a' b', s = (a' ++ b')%string /\
                JS.toLowerCaseASCII a' = a /\ JS.toLowerCaseASCII b' = b.
Proof.
  revert s. induction a as [|c a IH]; intros s H; simpl in H.
  - exists "", s. auto.
  - destruct s as [|c' s]; simpl in H; [discriminate|].
    injection H as Hc H.
    destruct (IH s H) as (a' & b' & -> & Ha & Hb).
    exists (String c' a'), b'. simpl. rewrite Ha, Hc. auto.
Qed.

Lemma ci_substring_segment (q s : string) :
  ci_substring (P := ordinalPlatform) q s <->
  exists pre mid post : string,
    s = (pre ++ mid ++ post)%string /\
    JS.toLowerCaseASCII mid = JS.toLowerCaseASCII q.
Proof.
  unfold ci_substring. cbn [toLowerCase ordinalPlatform]. split.
  - intros (pre & post & H).
    apply toLowerCaseASCII_split in H as (pre' & rest & -> & _ & H).
    apply toLowerCaseASCII_split in H as (mid & post' & -> & Hmid & _).
    now exists pre', mid, post'.
  - intros (pre & mid & post & -> & Hmid).
    exists (JS.toLowerCaseASCII pre), (JS.toLowerCaseASCII post).
    now rewrite !toLowerCaseASCII_app, Hmid.
Qed.

Lemma truthy_false (s : string) : JS.truthy s = false <-> s = "".
Proof. destruct s; simpl; split; congruence. Qed.

Lemma defaultCompare_consistent : consistent JS.defaultCompare.
Proof.
  unfold JS.defaultCompare. constructor.
  - intros a b. rewrite (String.compare_antisym a b).
    destruct (String.compare b a); simpl; lia.
  - intros a b c.
    destruct (String.compare a b) eqn:Hab; [| |lia];
      destruct (String.compare b c) eqn:Hbc; try lia; intros _ _.
    + apply String_as_OT.cmp_eq in Hab, Hbc. subst.
      pose proof (proj2 (String_as_OT.cmp_eq c c) eq_refl) as Hcc.
      unfold String_as_OT.cmp in Hcc. rewrite Hcc. lia.
    + apply String_as_OT.cmp_eq in Hab. subst. rewrite Hbc. lia.
    + apply String_as_OT.cmp_eq in Hbc. subst. rewrite Hab. lia.
    + apply String_as_OT.cmp_lt in Hab, Hbc.
      pose proof (String_as_OT.lt_trans _ _ _ Hab Hbc) as Hac.
      apply String_as_OT.cmp_lt in Hac. unfold String_as_OT.cmp in Hac.
      rewrite Hac. lia.
Qed.

(** ** The filter engine *)

Lemma matchesSearch_spec {P : Platform} (term : string) (r : Repository) :
  matchesSearch term r = true <->
  ci_substring term (name r) \/
  exists d, description r = Some d /\ ci_substring term d.
Proof.
  unfold matchesSearch. rewrite orb_true_iff, includes_toLowerCase.
  destruct (description r) as [d|].
  - rewrite includes_toLowerCase. split.
    + intros [H | H]; [now left | right; now exists d].
    + intros [H | (d' & E & H)]; [now left | right].
      now injection E as ->.
  - split.
    + intros [H | H]; [now left | discriminate].
    + intros [H | (d' & E & _)]; [now left | discriminate].
Qed.

Lemma searchFilter_In {P : Platform} (term : string) (l : list Repository)
  (r : Repository) :
  In r (searchFilter term l) <-> In r l /\ matching_rule term r.
Proof.
  unfold searchFilter, matching_rule.
  destruct (JS.truthy term) eqn:Ht.
  - rewrite filter_In, matchesSearch_spec.
    assert (term <> "") by (intros ->; discriminate).
    tauto.
  - apply truthy_false in Ht. tauto.
Qed.

Lemma visibilityFilter_In (f : Filters.t) (l : list Repository) (r : Repository) :
  In r (visibilityFilter f l) <-> In r l /\ visibility_rule f r.
Proof.
  unfold visibilityFilter, visibility_rule.
  destruct (Filters.private f), (Filters.public f); simpl;
    rewrite ?filter_In, ?negb_true_iff; intuition congruence.
Qed.

Lemma language_is_spec (l : string) (r : Repository) :
  language_is l r = true <-> language r = Some l.
Proof.
  unfold language_is. destruct (language r) as [l'|].
  - rewrite String.eqb_eq. split; congruence.
  - split; discriminate.
Qed.

Lemma languageFilter_In (f : Filters.t) (l : list Repository) (r : Repository) :
  In r (languageFilter f l) <-> In r l /\ language_rule f r.
Proof.
  unfold languageFilter, language_rule.
  destruct (JS.truthy (Filters.language f)) eqn:Ht.
  - rewrite filter_In, language_is_spec.
    assert (Filters.language f <> "") by (intros E; rewrite E in Ht; discriminate).
    tauto.
  - apply truthy_false in Ht. tauto.
Qed.

(** Every filter keeps a sublist of what it is given, in the same
    order. *)
Lemma filters_keep_order {P : Platform} (term : string) (f : Filters.t)
  (l : list Repository) :
  exists keep : Repository -> bool,
    languageFilter f (visibilityFilter f (searchFilter term l)) = filter keep l.
Proof.
  assert (Hid : forall l0 : list Repository, l0 = filter (fun _ => true) l0).
  { intros l0. symmetry. now apply filter_everything. }
  assert (Hcomp : forall (p q : Repository -> bool) l0,
             filter q (filter p l0) = filter (fun x => p x && q x) l0).
  { intros p q l0. induction l0 as [|a l0 IH]; simpl; [reflexivity|].
    destruct (p a); simpl; [destruct (q a)|]; now rewrite IH. }
  assert (H1 : exists k1, searchFilter term l = filter k1 l).
  { unfold searchFilter. destruct (JS.truthy term); eexists; [reflexivity | apply Hid]. }
  destruct H1 as (k1 & ->).
  assert (H2 : exists k2, visibilityFilter f (filter k1 l) = filter k2 l).
  { unfold visibilityFilter.
    destruct (_ && _); [|destruct (_ && _)]; rewrite ?Hcomp; eexists; reflexivity. }
  destruct H2 as (k2 & ->).
  unfold languageFilter.
  destruct (JS.truthy _); rewrite ?Hcomp; eexists; reflexivity.
Qed.

Section Engine.
Context {P : Platform}.

Lemma derive_In (catalog : list Repository) (term : string) (f : Filters.t)
  (r : Repository) :
  In r (derive catalog term f) <->
  In r catalog /\ visibility_rule f r /\ language_rule f r /\ matching_rule term r.
Proof.
  unfold derive. cbv zeta.
  rewrite sort_In, languageFilter_In, visibilityFilter_In, searchFilter_In.
  tauto.
Qed.


Lemma comparator_in_order (k : SortKey) (a b : Repository) :
  comparator k a b <= 0 <-> in_order k a b.
Proof. destruct k; simpl; lia. Qed.

Lemma comparator_consistent (k : SortKey) :
  (k = by_name -> consistent localeCompare) -> consistent (comparator k).
Proof.
  intros H. destruct k; try (constructor; simpl; intros; lia).
  destruct (H eq_refl) as [Hsign Htrans].
  constructor; simpl; intros.
  - apply Hsign.
  - eapply Htrans; eassumption.
Qed.
End Engine.


(** ** Which items the engine includes *)




(** ** The order of the view *)

(** C6.  The sort is the last step of the engine: the view is the sort,
    under the comparator of the chosen key, of what the three filters
    keep, and that is a sublist of the catalog in catalog order.  With a
    consistent collation when the key is the name, the view is a
    permutation of what the filters keep, every item stands before the
    items that follow it in the order of the key (name ascending under the
    collation; creation time, last modification, stars, forks descending),
    and the items that compare equal to any given item come out in the
    order the catalog has them.  Items named b, a, c come out as a, b, c
    under a collation that puts a before b and b before c, and items with
    3, 1 and 2 stars come out as 3, 2, 1. *)
Theorem sort_last_stable_by_key {P : Platform}
  (catalog : list Repository) (term : string) (f : Filters.t) :
  (Filters.sortBy f = by_name -> consistent localeCompare) ->
  let k := Filters.sortBy f in
  let kept := languageFilter f (visibilityFilter f (searchFilter term catalog)) in
  derive catalog term f = JS.sort (comparator k) kept /\
  (exists keep, kept = filter keep catalog) /\
  Permutation kept (derive catalog term f) /\
  StronglySorted (in_order k) (derive catalog term f) /\
  (forall x,
      filter (fun y => comparator k x y =? 0) (derive catalog term f)
      = filter (fun y => comparator k x y =? 0) kept) /\
  (forall xb xa xc,
      consistent localeCompare ->
      name xb = "b" -> name xa = "a" -> name xc = "c" ->
      localeCompare "a" "b" < 0 -> localeCompare "b" "c" < 0 ->
      derive [xb; xa; xc] "" (Filters.mk false false by_name "") = [xa; xb; xc]) /\
  (forall x3 x1 x2,
      stargazers_count x3 = 3 -> stargazers_count x1 = 1 ->
      stargazers_count x2 = 2 ->
      derive [x3; x1; x2] "" (Filters.mk false false stars "") = [x3; x2; x1]).
Proof.
  intros Hlc k kept.
  pose proof (comparator_consistent k Hlc) as Hk.
  split; [reflexivity|]. split; [apply filters_keep_order|].
  split; [apply sort_perm|]. split; [|split; [|split]].
  - apply StronglySorted_weaken with (R1 := fun a b => comparator k a b <= 0).
    + intros a b. apply comparator_in_order.
    + now apply sort_sorted.
  - intros x. now apply sort_stable.
  - intros xb xa xc Hc Hb Ha Hcn Hab Hbc.
    pose proof (cmp_sign _ Hc "a" "b") as Hs.
    pose proof (cmp_trans _ Hc "a" "b" "c") as Ht.
    unfold derive. cbn. rewrite Ha, Hcn.
    destruct (Z.leb_spec (localeCompare "a" "c") 0); [|lia].
    cbn. rewrite Ha, Hb, Hcn.
    destruct (Z.leb_spec (localeCompare "b" "a") 0); [lia|].
    destruct (Z.leb_spec (localeCompare "b" "c") 0); [|lia].
    reflexivity.
  - intros x3 x1 x2 H3 H1 H2. unfold derive. cbn. rewrite H1, H2.
    cbn. rewrite H1, H2, H3. reflexivity.
Qed.

Lemma sort_last_stable_by_key_witness :
  derive (P := ordinalPlatform) [repoC; repoB; repoA] ""
    (Filters.mk false false by_name "")
  = [repoA; repoB; repoC] /\
  StronglySorted (in_order (P := ordinalPlatform) by_name)
    (derive (P := ordinalPlatform) [repoC; repoB; repoA] ""
       (Filters.mk false false by_name "")) /\
  derive (P := ordinalPlatform) [named "b"; named "a"; named "c"] ""
    (Filters.mk false false by_name "")
  = [named "a"; named "b"; named "c"] /\
  derive (P := ordinalPlatform) [repoA; repoB; repoC] ""
    (Filters.mk false false stars "")
  = [repoA; repoC; repoB].
Proof.
  destruct (sort_last_stable_by_key (P := ordinalPlatform) [repoC; repoB; repoA] ""
              (Filters.mk false false by_name "")
              (fun _ => defaultCompare_consistent))
    as (He & _ & _ & Hs & _ & Hnames & Hstars).
  split; [exact He|]. split; [exact Hs|]. split.
  - apply Hnames; try reflexivity. exact defaultCompare_consistent.
  - apply Hstars; reflexivity.
Defined.

(** ** The available languages *)

Lemma array_includes_spec (xs : list string) (x : string) :
  JS.array_includes xs x = true <-> In x xs.
Proof.
  unfold JS.array_includes. rewrite existsb_exists. split.
  - intros (y & Hy & E). apply String.eqb_eq in E. now subst.
  - intros H. exists x. split; [exact H | apply String.eqb_refl].
Qed.

Lemma set_from_In (seen xs : list string) (x : string) :
  In x (JS.set_from seen xs) <-> In x xs /\ ~ In x seen.
Proof.
  revert seen. induction xs as [|y xs IH]; intros seen; simpl.
  - tauto.
  - destruct (JS.array_includes seen y) eqn:E.
    + apply array_includes_spec in E. rewrite IH.
      split; [tauto|]. intros [[-> | H] Hn]; tauto.
    + assert (Hy : ~ In y seen).
      { intros H. apply array_includes_spec in H. congruence. }
      simpl. rewrite IH. simpl.
      destruct (string_dec y x) as [-> | n]; [tauto|].
      split; [tauto|]. intros [[H | H] Hn]; [contradiction|].
      right. split; [exact H|]. intros [H' | H']; contradiction.
Qed.

Lemma set_from_NoDup (seen xs : list string) : NoDup (JS.set_from seen xs).
Proof.
  revert seen. induction xs as [|y xs IH]; intros seen; simpl.
  - constructor.
  - destruct (JS.array_includes seen y); [apply IH|].
    constructor; [|apply IH].
    rewrite set_from_In. simpl. tauto.
Qed.

Lemma non_null_In (l : list (option string)) (x : string) :
  In x (non_null l) <-> In (Some x) l.
Proof.
  induction l as [|[y|] l IH]; simpl.
  - tauto.
  - rewrite IH. split; intros [H | H]; auto; left; congruence.
  - rewrite IH. split; [auto|]. intros [H | H]; [discriminate | exact H].
Qed.

Lemma uniqueLanguages_In (catalog : list Repository) (l : string) :
  In l (uniqueLanguages catalog) <->
  exists r, In r catalog /\ language r = Some l.
Proof.
  unfold uniqueLanguages, JS.Array_from_Set.
  rewrite sort_In, set_from_In, non_null_In, in_map_iff. simpl.
  split.
  - intros [(r & E & Hr) _]. now exists r.
  - intros (r & Hr & E). split; [now exists r | tauto].
Qed.

Lemma strictly_sorted (l : list string) :
  StronglySorted (fun a b => JS.defaultCompare a b <= 0) l ->
  NoDup l ->
  StronglySorted (fun a b => String.ltb a b = true) l.
Proof.
  induction 1 as [|a l Hs IH Hall]; intros Hnd; constructor;
    inversion Hnd as [|? ? Hnotin Hnd']; subst.
  - now apply IH.
  - apply Forall_forall. intros b Hb.
    rewrite Forall_forall in Hall. specialize (Hall b Hb).
    unfold JS.defaultCompare in Hall. unfold String.ltb.
    destruct (String.compare a b) eqn:E; [|reflexivity|lia].
    apply String.compare_eq_iff in E. now subst.
Qed.

Lemma uniqueLanguages_sorted (catalog : list Repository) :
  StronglySorted (fun a b => String.ltb a b = true) (uniqueLanguages catalog).
Proof.
  unfold uniqueLanguages. apply strictly_sorted.
  - apply sort_sorted. exact defaultCompare_consistent.
  - apply (Permutation_NoDup (sort_perm _ _)). apply set_from_NoDup.
Qed.

(** C7, as the code has it.  After a change to the catalog that leaves
    it with at least one item, the list of available languages is
    [uniqueLanguages] of the catalog: strictly ascending by code units,
    hence without repetition, and made of exactly the languages that some
    item of the catalog has.  A change that leaves the catalog empty
    leaves the list as it was.  The list is computed from the catalog and
    not from the view: changing the query or the configuration does not
    change it. *)
Theorem languages_of_nonempty_catalog {P : Platform}
  (g : list Repository -> list Repository) (st : State) :
  (g (repositories st) <> [] ->
   languages (setRepositories g st)
   = uniqueLanguages (repositories (setRepositories g st))) /\
  (g (repositories st) = [] ->
   languages (setRepositories g st) = languages st) /\
  (forall catalog,
      StronglySorted (fun a b => String.ltb a b = true) (uniqueLanguages catalog) /\
      forall l, In l (uniqueLanguages catalog) <->
                exists r, In r catalog /\ language r = Some l) /\
  (forall term f,
      languages (setFilters f (setSearchTerm term (setRepositories g st)))
      = languages (setRepositories g st)).
Proof.
  split; [|split; [|split]].
  - intros H. rewrite languages_setRepositories, repositories_setRepositories.
    destruct (g (repositories st)); [congruence | reflexivity].
  - intros H. now rewrite languages_setRepositories, H.
  - intros catalog. split; [apply uniqueLanguages_sorted|].
    intros l. apply uniqueLanguages_In.
  - reflexivity.
Qed.

Lemma languages_of_nonempty_catalog_witness :
  languages (stateOf [repoA; repoB; repoC; repoA]) = ["C"; "Go"].
Proof.
  destruct (languages_of_nonempty_catalog (P := ordinalPlatform)
              (fun _ => [repoA; repoB; repoC; repoA])
              (setToken "ghp_token" initialState)) as (H & _).
  assert (Hne : [repoA; repoB; repoC; repoA] <> []) by discriminate.
  exact (H Hne).
Defined.

(** A rejected fetch on a catalog whose one item is written in Go: the
    catalog is emptied and the list still offers Go. *)
Lemma languages_stale_after_failed_fetch :
  repositories (ui (fetchRepositories (P := ordinalPlatform) badRemote
                      (worldOf [repoA]))) = [] /\
  languages (ui (fetchRepositories (P := ordinalPlatform) badRemote
                   (worldOf [repoA]))) = ["Go"] /\
  uniqueLanguages [] = [] /\
  ~ languages_follow_every_change.
Proof.
  split; [reflexivity|]. split; [reflexivity|]. split; [reflexivity|].
  intros H. specialize (H badRemote (worldOf [repoA])).
  vm_compute in H. discriminate H.
Qed.

(** ** The selection manager *)

Lemma same_but_selected_with_selected (b : bool) (r : Repository) :
  same_but_selected r (with_selected b r).
Proof. repeat split. Qed.

Lemma Forall2_map_right {A B : Type} (R : A -> B -> Prop) (g : A -> B)
  (l : list A) :
  (forall x, R x (g x)) -> Forall2 R l (map g l).
Proof.
  intros H. induction l as [|a l IH]; simpl; constructor; auto.
Qed.

(** C8.  [toggleSelectAll checked] rewrites the catalog item by item:
    every item of the catalog, in the view or hidden by the filter, gets
    [selected = checked] and keeps every other field.  The view is derived
    from that catalog, and under whatever query and configuration the view
    is derived afterwards, every item it shows, hidden before or not,
    carries [selected = checked]; changing the query or the configuration
    does not touch the catalog. *)
Theorem toggleSelectAll_catalog_wide {P : Platform} (checked : bool) (st : State) :
  repositories (toggleSelectAll checked st)
  = map (with_selected checked) (repositories st) /\
  Forall2 same_but_selected (repositories st)
    (repositories (toggleSelectAll checked st)) /\
  Forall (fun r => selected r = Some checked)
    (repositories (toggleSelectAll checked st)) /\
  (forall r,
      In r (repositories st) ->
      ~ In r (filteredRepositories st) ->
      In (with_selected checked r) (repositories (toggleSelectAll checked st))) /\
  filteredRepositories (toggleSelectAll checked st)
  = derive (repositories (toggleSelectAll checked st)) (searchTerm st) (filters st) /\
  (forall term f,
      repositories (setFilters f (setSearchTerm term (toggleSelectAll checked st)))
      = repositories (toggleSelectAll checked st) /\
      filteredRepositories
        (setFilters f (setSearchTerm term (toggleSelectAll checked st)))
      = derive (repositories (toggleSelectAll checked st)) term f /\
      forall r,
        In r (derive (repositories (toggleSelectAll checked st)) term f) ->
        selected r = Some checked).
Proof.
  assert (Hr : repositories (toggleSelectAll checked st)
               = map (with_selected checked) (repositories st)).
  { unfold toggleSelectAll. now rewrite repositories_setRepositories. }
  assert (Hall : Forall (fun r => selected r = Some checked)
                   (repositories (toggleSelectAll checked st))).
  { rewrite Hr. apply Forall_forall. intros r Hin.
    apply in_map_iff in Hin as (r0 & <- & _). reflexivity. }
  split; [exact Hr|]. split; [|split; [exact Hall|split; [|split; [|]]]].
  - rewrite Hr. apply Forall2_map_right. intros r.
    apply same_but_selected_with_selected.
  - intros r Hin _. rewrite Hr. now apply in_map.
  - unfold toggleSelectAll.
    now rewrite filteredRepositories_setRepositories, repositories_setRepositories.
  - intros term f. split; [reflexivity|]. split; [reflexivity|].
    intros r Hin. apply derive_In in Hin as (Hin & _).
    rewrite Forall_forall in Hall. now apply Hall.
Qed.

Lemma toggleSelectAll_catalog_wide_witness :
  let st := setSearchTerm (P := ordinalPlatform) "alpha" (stateOf [repoA; repoB]) in
  ~ In repoB (filteredRepositories st) /\
  In (with_selected true repoB)
    (repositories (toggleSelectAll (P := ordinalPlatform) true st)).
Proof.
  intros st.
  assert (Hhidden : ~ In repoB (filteredRepositories st)).
  { vm_compute. intros [H | []]. discriminate H. }
  split; [exact Hhidden|].
  destruct (toggleSelectAll_catalog_wide (P := ordinalPlatform) true st)
    as (_ & _ & _ & H & _).
  apply H; [|exact Hhidden]. vm_compute. auto.
Defined.

Lemma toggle_in_place (g : Repository -> Repository) (id0 : Z)
  (before after : list Repository) (repo : Repository) :
  id repo = id0 ->
  NoDup (map id (before ++ repo :: after)) ->
  map (fun r => if id r =? id0 then g r else r) (before ++ repo :: after)
  = before ++ g repo :: after.
Proof.
  intros Hid Hnd. rewrite map_app in Hnd. simpl in Hnd.
  apply NoDup_remove_2 in Hnd.
  assert (Hother : forall l, (forall r, In r l -> id r <> id0) ->
                             map (fun r => if id r =? id0 then g r else r) l = l).
  { induction l as [|a l IH]; intros H; simpl; [reflexivity|].
    destruct (Z.eqb_spec (id a) id0) as [e | n].
    - exfalso. apply (H a); [now left | exact e].
    - f_equal. apply IH. intros r Hr. apply H. now right. }
  rewrite map_app. simpl. rewrite Hid, Z.eqb_refl.
  rewrite !Hother; [reflexivity | |].
  - intros r Hr E. apply Hnd. apply in_or_app. right.
    rewrite Hid, <- E. now apply in_map.
  - intros r Hr E. apply Hnd. apply in_or_app. left.
    rewrite Hid, <- E. now apply in_map.
Qed.

(** C9.  On a catalog with unique identifiers, take the checkbox of an
    item of the catalog.  While the item is pending the checkbox is
    disabled and clicking it changes nothing.  Otherwise the click calls
    [toggleRepository] with the item's identifier, and the catalog after
    it is the catalog before it with that one item replaced by itself with
    [selected] negated: the items before it and after it are the same, and
    the replaced item differs by [selected] only.  An identifier that no
    item has toggles nothing. *)
Theorem toggle_one_unless_pending {P : Platform} (st : State) (repo : Repository) :
  NoDup (map id (repositories st)) ->
  In repo (repositories st) ->
  (deleteStatus repo = Some DeleteStatus.pending ->
   clickCheckbox repo st = st) /\
  (deleteStatus repo <> Some DeleteStatus.pending ->
   clickCheckbox repo st = toggleRepository (id repo) st /\
   exists before after,
     repositories st = before ++ repo :: after /\
     repositories (clickCheckbox repo st)
     = before ++ with_selected (negb (is_selected repo)) repo :: after) /\
  same_but_selected repo (with_selected (negb (is_selected repo)) repo) /\
  is_selected (with_selected (negb (is_selected repo)) repo)
  = negb (is_selected repo) /\
  (forall id0,
      ~ In id0 (map id (repositories st)) ->
      repositories (toggleRepository id0 st) = repositories st).
Proof.
  intros Hnd Hin. split; [|split; [|split; [|split]]].
  - intros Hp. unfold clickCheckbox, checkbox_disabled. now rewrite Hp.
  - intros Hp.
    assert (E : clickCheckbox repo st = toggleRepository (id repo) st).
    { unfold clickCheckbox, checkbox_disabled, checkbox_onChange.
      destruct (deleteStatus repo) as [[| |]|]; try reflexivity. congruence. }
    split; [exact E|].
    destruct (in_split _ _ Hin) as (before & after & Hsplit).
    exists before, after. split; [exact Hsplit|].
    rewrite E. unfold toggleRepository.
    rewrite repositories_setRepositories, Hsplit.
    apply (toggle_in_place (fun r => with_selected (negb (is_selected r)) r));
      [reflexivity | now rewrite <- Hsplit].
  - apply same_but_selected_with_selected.
  - reflexivity.
  - intros id0 Hid. unfold toggleRepository.
    rewrite repositories_setRepositories.
    rewrite <- (map_id (repositories st)) at 2. apply map_ext_in.
    intros r Hr. destruct (Z.eqb_spec (id r) id0) as [e | n]; [|reflexivity].
    exfalso. apply Hid. rewrite <- e. now apply in_map.
Qed.

Lemma toggle_one_unless_pending_witness :
  repositories (clickCheckbox (P := ordinalPlatform) repoB
                  (stateOf [repoA; repoB; repoC]))
  = [repoA; with_selected true repoB; repoC].
Proof.
  assert (Hnd : NoDup (map id (repositories (stateOf [repoA; repoB; repoC]))))
    by solve_NoDup.
  assert (Hin : In repoB (repositories (stateOf [repoA; repoB; repoC]))).
  { vm_compute. auto. }
  destruct (toggle_one_unless_pending (P := ordinalPlatform)
              (stateOf [repoA; repoB; repoC]) repoB Hnd Hin) as (_ & H & _).
  assert (Hp : deleteStatus repoB <> Some DeleteStatus.pending) by discriminate.
  destruct (H Hp) as (E & _). rewrite E. reflexivity.
Defined.

(** The handler itself does not look at the status: called on a pending
    item it flips the flag all the same.  The guard of C9 is the disabled
    checkbox. *)
Lemma toggleRepository_ignores_status {P : Platform} :
  let r := with_deleteStatus DeleteStatus.pending repoA in
  map is_selected
    (repositories (toggleRepository (id r)
                     (setRepositories (fun _ => [r]) initialState)))
  = [true].
Proof. intros r. unfold toggleRepository. now autorewrite with state. Qed.

(** * Further properties of the component *)

(** ** Fields that the catalog setter and the notifications leave alone *)

Lemma controls_setRepositories {P : Platform}
  (f : list Repository -> list Repository) (st : State) :
  controls (setRepositories f st) = controls st.
Proof.
  unfold setRepositories, languagesEffect.
  destruct (0 <? _)%nat; reflexivity.
Qed.

Lemma controls_eq (st st' : State) :
  controls st = controls st' ->
  token st = token st' /\ loading st = loading st' /\ error st = error st' /\
  success st = success st' /\ deleteInProgress st = deleteInProgress st' /\
  searchTerm st = searchTerm st' /\
  deleteConfirmationOpen st = deleteConfirmationOpen st' /\
  filters st = filters st'.
Proof.
  unfold controls. intros H. inversion H. repeat split; assumption.
Qed.

Lemma controls_is (st : State) (a : string) (b : bool) (c d : string) (e : bool)
  (f : string) (g : bool) (h : Filters.t) :
  controls st = (a, b, c, d, e, f, g, h) ->
  token st = a /\ loading st = b /\ error st = c /\ success st = d /\
  deleteInProgress st = e /\ searchTerm st = f /\
  deleteConfirmationOpen st = g /\ filters st = h.
Proof.
  unfold controls. intros H. inversion H. repeat split.
Qed.

Lemma controls_toast (t : Toast) (st : State) : controls (toast t st) = controls st.
Proof. reflexivity. Qed.

Lemma view_in_sync_setRepositories {P : Platform}
  (f : list Repository -> list Repository) (st : State) :
  view_in_sync (setRepositories f st).
Proof.
  unfold view_in_sync.
  now rewrite filteredRepositories_setRepositories, repositories_setRepositories,
    searchTerm_setRepositories, filters_setRepositories.
Qed.

Lemma languages_in_sync_setRepositories {P : Platform}
  (f : list Repository -> list Repository) (st : State) :
  languages_in_sync (setRepositories f st).
Proof.
  unfold languages_in_sync.
  rewrite languages_setRepositories, repositories_setRepositories.
  destruct (f (repositories st)); [congruence | reflexivity].
Qed.

Lemma existsb_false_filter {A : Type} (p : A -> bool) (l : list A) :
  existsb p l = false <-> filter p l = [].
Proof.
  induction l as [|a l IH]; simpl; [tauto|].
  destruct (p a); simpl; [split; discriminate | exact IH].
Qed.

Lemma length_zero_nil {A : Type} (l : list A) :
  (List.length l =? 0)%nat = true <-> l = [].
Proof. destruct l; simpl; split; congruence. Qed.

(** ** Removing an item from the selection *)

Lemma removeFromSelection_eq {P : Platform} (id0 : Z) (st : State) :
  removeFromSelection id0 st
  = toast (toast_success "Repository removed from selection")
      ((if (List.length
              (filter (fun repo => negb (id repo =? id0)%Z && is_selected repo)
                 (repositories st)) =? 0)%nat
        then setDeleteConfirmationOpen false
        else fun st1 => st1)
         (setRepositories
            (map (fun repo => if id repo =? id0 then with_selected false repo
                              else repo)) st)).
Proof.
  unfold removeFromSelection. cbv zeta. now destruct (_ =? 0)%nat.
Qed.

Lemma repositories_removeFromSelection {P : Platform} (id0 : Z) (st : State) :
  repositories (removeFromSelection id0 st)
  = map (fun repo => if id repo =? id0 then with_selected false repo else repo)
      (repositories st).
Proof.
  rewrite removeFromSelection_eq.
  destruct (_ =? 0)%nat; cbn; now rewrite repositories_setRepositories.
Qed.

Lemma selected_after_removal (id0 : Z) (l : list Repository) :
  filter is_selected
    (map (fun repo => if id repo =? id0 then with_selected false repo else repo) l)
  = filter (fun repo => negb (id repo =? id0) && is_selected repo) l.
Proof.
  induction l as [|r l IH]; simpl; [reflexivity|].
  destruct (id r =? id0); simpl; [exact IH|].
  destruct (is_selected r); now rewrite IH.
Qed.

(** X1.  [removeFromSelection id0] rewrites the catalog item by item:
    every item keeps all its fields but [selected], an item with another
    identifier is untouched, an item with that identifier ends with
    [selected] false.  The items selected afterwards are exactly those the
    handler counted as remaining, one notification is added, and the view
    is derived from the new catalog. *)
Theorem removeFromSelection_deselects_one {P : Platform} (id0 : Z) (st : State) :
  Forall2 (fun r r' => same_but_selected r r' /\
                       (id r <> id0 -> r' = r) /\
                       (id r = id0 -> selected r' = Some false))
    (repositories st) (repositories (removeFromSelection id0 st)) /\
  selectedRepositories (removeFromSelection id0 st)
  = filter (fun repo => negb (id repo =? id0) && is_selected repo)
      (repositories st) /\
  toasts (removeFromSelection id0 st)
  = toasts st ++ [toast_success "Repository removed from selection"] /\
  view_in_sync (removeFromSelection id0 st).
Proof.
  split; [|split; [|split]].
  - rewrite repositories_removeFromSelection. apply Forall2_map_right.
    intros r. destruct (Z.eqb_spec (id r) id0) as [e | n].
    + split; [apply same_but_selected_with_selected|].
      split; [congruence | reflexivity].
    + split; [repeat split|]. split; [reflexivity | congruence].
  - unfold selectedRepositories. rewrite repositories_removeFromSelection.
    apply selected_after_removal.
  - rewrite removeFromSelection_eq.
    destruct (_ =? 0)%nat; cbn; now rewrite toasts_setRepositories.
  - rewrite removeFromSelection_eq.
    pose proof (view_in_sync_setRepositories
                  (map (fun repo => if id repo =? id0
                                    then with_selected false repo else repo)) st) as H.
    destruct (_ =? 0)%nat; exact H.
Qed.

(** X2.  After [removeFromSelection] the confirmation view is open exactly
    when it was open and some item is still selected: removing the last
    selected item closes it, and it is never left open over an empty
    selection. *)
Theorem removeFromSelection_closes_on_empty {P : Platform} (id0 : Z) (st : State) :
  deleteConfirmationOpen (removeFromSelection id0 st)
  = deleteConfirmationOpen st
    && negb (List.length (selectedRepositories (removeFromSelection id0 st)) =? 0)%nat /\
  (deleteConfirmationOpen (removeFromSelection id0 st) = true ->
   selectedRepositories (removeFromSelection id0 st) <> []).
Proof.
  assert (E : deleteConfirmationOpen (removeFromSelection id0 st)
              = deleteConfirmationOpen st
                && negb (List.length
                           (selectedRepositories (removeFromSelection id0 st)) =? 0)%nat).
  { unfold selectedRepositories.
    rewrite repositories_removeFromSelection, selected_after_removal.
    rewrite removeFromSelection_eq.
    pose proof (controls_setRepositories
                  (map (fun repo => if id repo =? id0
                                    then with_selected false repo else repo)) st) as Hc.
    apply controls_eq in Hc as (_ & _ & _ & _ & _ & _ & Ho & _).
    destruct (_ =? 0)%nat; cbn.
    - now rewrite andb_false_r.
    - now rewrite Ho, andb_true_r. }
  split; [exact E|].
  intros Hopen Hnil. rewrite E, Hnil in Hopen. simpl in Hopen.
  rewrite andb_false_r in Hopen. discriminate.
Qed.

Lemma removeFromSelection_closes_on_empty_witness :
  deleteConfirmationOpen
    (removeFromSelection (P := ordinalPlatform) 3
       (setDeleteConfirmationOpen true (stateOf [repoA; repoC]))) = false /\
  deleteConfirmationOpen
    (removeFromSelection (P := ordinalPlatform) 1
       (setDeleteConfirmationOpen true (stateOf [repoA; repoC]))) = true /\
  selectedRepositories
    (removeFromSelection (P := ordinalPlatform) 1
       (setDeleteConfirmationOpen true (stateOf [repoA; repoC]))) <> [].
Proof.
  split; [reflexivity|]. split; [reflexivity|].
  apply (removeFromSelection_closes_on_empty (P := ordinalPlatform) 1
           (setDeleteConfirmationOpen true (stateOf [repoA; repoC]))).
  reflexivity.
Defined.

(** ** The Delete Selected button *)

(** X3.  The button is enabled exactly when no batch is in progress and
    some item is selected.  A click then opens the confirmation view and
    does nothing else; a click on the disabled button does nothing.  So
    through the button the nothing-selected notification of
    [handleDeleteSelected] is never shown, and no click on it reaches the
    network or the catalog. *)
Theorem delete_button_guards_handler (w : World) :
  (deleteButton_disabled (ui w) = false <->
   deleteInProgress (ui w) = false /\ selectedRepositories (ui w) <> []) /\
  clickDeleteSelected w
  = (if deleteButton_disabled (ui w) then w
     else on_ui (setDeleteConfirmationOpen true) w) /\
  toasts (ui (clickDeleteSelected w)) = toasts (ui w) /\
  network (clickDeleteSelected w) = network w /\
  repositories (ui (clickDeleteSelected w)) = repositories (ui w).
Proof.
  assert (Hen : deleteButton_disabled (ui w) = false <->
                deleteInProgress (ui w) = false /\ selectedRepositories (ui w) <> []).
  { unfold deleteButton_disabled, selectedRepositories.
    rewrite orb_false_iff, negb_false_iff.
    destruct (existsb is_selected (repositories (ui w))) eqn:E.
    - assert (filter is_selected (repositories (ui w)) <> []).
      { intros H. apply existsb_false_filter in H. congruence. }
      tauto.
    - apply existsb_false_filter in E. split; [intros [_ H]; discriminate|].
      intros [_ H]. congruence. }
  assert (Hc : clickDeleteSelected w
               = (if deleteButton_disabled (ui w) then w
                  else on_ui (setDeleteConfirmationOpen true) w)).
  { unfold clickDeleteSelected.
    destruct (deleteButton_disabled (ui w)); [reflexivity|].
    destruct (proj1 Hen eq_refl) as [_ Hsel]. unfold handleDeleteSelected.
    destruct (List.length _ =? 0)%nat eqn:E; [|reflexivity].
    apply length_zero_nil in E. contradiction. }
  split; [exact Hen|]. split; [exact Hc|]. rewrite Hc.
  destruct (deleteButton_disabled (ui w)); repeat split.
Qed.

(** ** Toggling *)

Lemma repositories_toggleRepository {P : Platform} (id0 : Z) (st : State) :
  repositories (toggleRepository id0 st)
  = map (fun repo => if id repo =? id0
                     then with_selected (negb (is_selected repo)) repo
                     else repo) (repositories st).
Proof. unfold toggleRepository. now rewrite repositories_setRepositories. Qed.

Lemma repositories_toggleSelectAll {P : Platform} (b : bool) (st : State) :
  repositories (toggleSelectAll b st) = map (with_selected b) (repositories st).
Proof. unfold toggleSelectAll. now rewrite repositories_setRepositories. Qed.

(** X4.  Toggling the same item twice restores every selection flag as
    the component reads it, and restores the catalog itself when every
    item has a [selected] field, as every fetched item has. *)
Theorem toggleRepository_twice {P : Platform} (id0 : Z) (st : State) :
  map is_selected (repositories (toggleRepository id0 (toggleRepository id0 st)))
  = map is_selected (repositories st) /\
  ((forall r, In r (repositories st) -> selected r <> None) ->
   repositories (toggleRepository id0 (toggleRepository id0 st))
   = repositories st).
Proof.
  rewrite !repositories_toggleRepository, !map_map. split.
  - apply map_ext. intros r.
    destruct (Z.eqb_spec (id r) id0) as [e | n]; cbn.
    + rewrite e, Z.eqb_refl. cbn. apply negb_involutive.
    + now destruct (Z.eqb_spec (id r) id0).
  - intros Hdef. rewrite <- (map_id (repositories st)) at 2.
    apply map_ext_in. intros r Hr. specialize (Hdef r Hr).
    destruct (Z.eqb_spec (id r) id0) as [e | n]; cbn.
    + rewrite e, Z.eqb_refl. destruct r as [? ? ? ? ? ? ? ? ? ? [b|] ? ?]; cbn in *.
      * now rewrite negb_involutive.
      * congruence.
    + now destruct (Z.eqb_spec (id r) id0).
Qed.

Lemma toggleRepository_twice_witness :
  repositories (toggleRepository (P := ordinalPlatform) 2
                  (toggleRepository (P := ordinalPlatform) 2
                     (stateOf [repoA; repoB; repoC])))
  = [repoA; repoB; repoC].
Proof.
  apply (toggleRepository_twice (P := ordinalPlatform) 2
           (stateOf [repoA; repoB; repoC])).
  intros r Hr. vm_compute in Hr.
  destruct Hr as [<- | [<- | [<- | []]]]; discriminate.
Defined.

(** X5.  After [toggleSelectAll true] the selection is the whole catalog;
    after [toggleSelectAll false] it is empty and the Delete Selected
    button is disabled.  A select-all overrides whatever was toggled
    before it, an earlier select-all included. *)
Theorem toggleSelectAll_selection {P : Platform} (st : State) :
  selectedRepositories (toggleSelectAll true st)
  = repositories (toggleSelectAll true st) /\
  selectedRepositories (toggleSelectAll false st) = [] /\
  deleteButton_disabled (toggleSelectAll false st) = true /\
  (forall b id0,
      repositories (toggleSelectAll b (toggleRepository id0 st))
      = repositories (toggleSelectAll b st)) /\
  (forall b b',
      repositories (toggleSelectAll b (toggleSelectAll b' st))
      = repositories (toggleSelectAll b st)).
Proof.
  assert (Hnone : selectedRepositories (toggleSelectAll false st) = []).
  { unfold selectedRepositories. rewrite repositories_toggleSelectAll.
    apply filter_nothing. intros r Hr.
    apply in_map_iff in Hr as (r0 & <- & _). reflexivity. }
  split; [|split; [exact Hnone|split; [|split]]].
  - unfold selectedRepositories. rewrite repositories_toggleSelectAll.
    apply filter_everything. intros r Hr.
    apply in_map_iff in Hr as (r0 & <- & _). reflexivity.
  - unfold deleteButton_disabled.
    apply existsb_false_filter in Hnone. rewrite Hnone. apply orb_true_r.
  - intros b id0.
    rewrite !repositories_toggleSelectAll, repositories_toggleRepository, map_map.
    apply map_ext. intros r. now destruct (id r =? id0).
  - intros b b'. rewrite !repositories_toggleSelectAll, map_map.
    apply map_ext. intros r. reflexivity.
Qed.

(** ** The messages of a failed verification *)

Lemma truthy_or_else (a b : string) :
  JS.truthy b = true -> JS.truthy (JS.or_else a b) = true.
Proof. intros H. unfold JS.or_else. destruct (JS.truthy a) eqn:E; congruence. Qed.

Lemma or_else_truthy (a b : string) : JS.truthy a = true -> JS.or_else a b = a.
Proof. intros H. unfold JS.or_else. now rewrite H. Qed.

Lemma verify_outcome_message (res : JS.Error + (option string * string))
  (err : JS.Error) :
  verify_outcome res = inl err ->
  JS.truthy (JS.message err) = true /\ JS.status err = None.
Proof.
  unfold verify_outcome. destruct (verify_try res) as [e | l]; [|discriminate].
  intros H. injection H as <-. unfold verify_catch.
  destruct (match JS.status e with Some s => s =? 401 | None => false end).
  - split; reflexivity.
  - split; [|reflexivity]. cbn. now apply truthy_or_else.
Qed.

(** X6.  A failed verification always carries a message that is not empty
    and no status.  A lookup rejected with status 401 gives the
    invalid-token message whatever the rejection says; any other rejection
    gives its own message, or the generic one when it has none; a lookup
    that is fulfilled without [delete_repo] among its scopes, or without
    the scopes header, gives the missing-scope message, which the [catch]
    of the verifier hands on unchanged.  A fulfilled lookup with the scope
    returns the login. *)
Theorem verification_messages (res : JS.Error + (option string * string)) :
  (forall err, verify_outcome res = inl err ->
               JS.truthy (JS.message err) = true /\ JS.status err = None) /\
  (forall e, res = inl e -> JS.status e = Some 401 ->
             verify_outcome res
             = inl (JS.new_Error "Invalid token. Please check your token and try again.")) /\
  (forall e, res = inl e -> JS.status e <> Some 401 ->
             verify_outcome res
             = inl (JS.new_Error
                      (JS.or_else (JS.message e)
                         "Failed to verify token permissions. Please ensure your token is valid and has the delete_repo scope."))) /\
  (forall header login,
      res = inr (header, login) ->
      hasDeleteScope (JS.opt_or_else header "") = false ->
      verify_outcome res
      = inl (JS.new_Error "Token does not have delete_repo scope. Please generate a new token with the delete_repo permission.")) /\
  (forall login, verify_outcome (inr (None, login))
                 = inl (JS.new_Error "Token does not have delete_repo scope. Please generate a new token with the delete_repo permission.")) /\
  (forall header login,
      res = inr (header, login) ->
      hasDeleteScope (JS.opt_or_else header "") = true ->
      verify_outcome res = inr login).
Proof.
  split; [apply verify_outcome_message|]. split; [|split; [|split; [|split]]].
  - intros e -> Hs. unfold verify_outcome, verify_try, verify_catch.
    now rewrite Hs.
  - intros e -> Hs. unfold verify_outcome, verify_try, verify_catch.
    destruct (JS.status e) as [s|]; [|reflexivity].
    destruct (Z.eqb_spec s 401) as [-> | n]; [congruence | reflexivity].
  - intros header login -> Hs. unfold verify_outcome, verify_try.
    now rewrite Hs.
  - intros login. reflexivity.
  - intros header login -> Hs. unfold verify_outcome, verify_try.
    now rewrite Hs.
Qed.

Lemma verification_messages_witness :
  verify_outcome (inl (JS.mkError (Some 401) "Bad credentials" None))
  = inl (JS.new_Error "Invalid token. Please check your token and try again.") /\
  verify_outcome (inl (JS.mkError (Some 500) "" None))
  = inl (JS.new_Error "Failed to verify token permissions. Please ensure your token is valid and has the delete_repo scope.") /\
  verify_outcome (inr (Some "repo, delete_repo", "octocat")) = inr "octocat".
Proof.
  split; [|split].
  - apply (verification_messages (inl (JS.mkError (Some 401) "Bad credentials" None)))
      with (e := JS.mkError (Some 401) "Bad credentials" None); reflexivity.
  - apply (verification_messages (inl (JS.mkError (Some 500) "" None)))
      with (e := JS.mkError (Some 500) "" None); [reflexivity | discriminate].
  - apply (verification_messages (inr (Some "repo, delete_repo", "octocat")))
      with (header := Some "repo, delete_repo"); reflexivity.
Defined.

(** ** The scopes header *)

Lemma comma_free_cons (c : ascii) (s : string) :
  comma_free (String c s) <-> c <> ","%char /\ comma_free s.
Proof.
  unfold comma_free. simpl. split.
  - intros H. split; [intros E | intros E]; apply H; [left; now symmetry | now right].
  - intros [Hc Hs] [E | E]; [now apply Hc | now apply Hs].
Qed.

Lemma split_comma_free (x : string) :
  comma_free x -> JS.split "," x = [x].
Proof.
  induction x as [|c x IH]; intros H; simpl; [reflexivity|].
  apply comma_free_cons in H as [Hc Hx].
  destruct (Ascii.eqb_spec c ","%char) as [e | _]; [contradiction|].
  now rewrite (IH Hx).
Qed.

Lemma split_app_comma (x rest : string) :
  comma_free x ->
  JS.split "," (x ++ "," ++ rest) = x :: JS.split "," rest.
Proof.
  induction x as [|c x IH]; intros H.
  - reflexivity.
  - apply comma_free_cons in H as [Hc Hx].
    change (String c x ++ "," ++ rest)%string
      with (String c (x ++ "," ++ rest))%string.
    cbn [JS.split].
    destruct (Ascii.eqb_spec c ","%char) as [e | _]; [contradiction|].
    now rewrite (IH Hx).
Qed.

Lemma split_concat (scopes : list string) :
  scopes <> [] -> Forall comma_free scopes ->
  JS.split "," (String.concat "," scopes) = scopes.
Proof.
  induction scopes as [|x scopes IH]; intros Hne Hall; [congruence|].
  inversion Hall as [|? ? Hx Hrest]; subst.
  destruct scopes as [|y scopes].
  - simpl. now apply split_comma_free.
  - change (String.concat "," (x :: y :: scopes))
      with (x ++ "," ++ String.concat "," (y :: scopes))%string.
    rewrite split_app_comma by exact Hx.
    rewrite IH; [reflexivity | discriminate | exact Hrest].
Qed.

(** X7.  For a scopes header that lists one or more scopes separated by
    commas, the verifier reads back exactly the scopes listed, and finds
    the delete scope exactly when one of them is [delete_repo] once the
    white space around it is removed: the match is on the whole scope and
    on its exact spelling. *)
Theorem scopes_header_read_back (scopes : list string) :
  scopes <> [] -> Forall comma_free scopes ->
  JS.split "," (String.concat "," scopes) = scopes /\
  (hasDeleteScope (String.concat "," scopes) = true <->
   exists s, In s scopes /\ JS.trim s = "delete_repo").
Proof.
  intros Hne Hall. pose proof (split_concat scopes Hne Hall) as Hs.
  split; [exact Hs|].
  unfold hasDeleteScope. rewrite Hs, array_includes_spec, in_map_iff.
  split; intros (s & H1 & H2); exists s; auto.
Qed.

Lemma scopes_header_read_back_witness :
  hasDeleteScope "repo, delete_repo ,user" = true.
Proof.
  assert (Hall : Forall comma_free ["repo"; " delete_repo "; "user"]).
  { repeat constructor; unfold comma_free; simpl; intuition discriminate. }
  assert (Hne : ["repo"; " delete_repo "; "user"] <> []) by discriminate.
  apply (scopes_header_read_back ["repo"; " delete_repo "; "user"] Hne Hall).
  exists " delete_repo ". split; [simpl; auto | reflexivity].
Defined.

(** ** The fetcher, case by case *)

Lemma derive_nil {P : Platform} (term : string) (f : Filters.t) :
  derive [] term f = [].
Proof.
  unfold derive, searchFilter, visibilityFilter, languageFilter.
  destruct (JS.truthy term), (Filters.private f && negb (Filters.public f)),
    (Filters.public f && negb (Filters.private f)),
    (JS.truthy (Filters.language f)); reflexivity.
Qed.

Section FetcherCases.
Context {P : Platform} (R : Remote) (w : World).

Let tok := token (ui w).
Let lookup := [Sent GET_user;
               Settled GET_user (failure_of (respond_user R tok (network w)))].
Let w1 := record lookup
            (on_ui (setSuccess "") (on_ui (setError "") (on_ui (setLoading true) w))).
Let req := GET_user_repos 100 "updated" "owner".
Let listing := respond_repos R tok (network w ++ lookup).
Let w2 := record [Sent req; Settled req (failure_of listing)] w1.

Lemma fetchRepositories_cases :
  fetchRepositories R w
  = on_ui (setLoading false)
      match verify_outcome (respond_user R tok (network w)) with
      | inl err => fetch_catch err w1
      | inr u =>
          match listing with
          | inl err => fetch_catch err w2
          | inr data =>
              on_ui (toast (toast_success
                       ("Successfully loaded " ++ JS.show_nat (List.length data)
                        ++ " repositories for " ++ u)%string))
                (on_ui (setRepositories (fun _ => map of_api data)) w2)
          end
      end.
Proof.
  unfold fetchRepositories.
  rewrite !verifyTokenPermissions_on_ui, verifyTokenPermissions_eq.
  cbn [fst snd ui on_ui token setSuccess setError setLoading network record].
  fold tok. destruct (verify_outcome _) as [err | u]; [reflexivity|].
  unfold request_repos. cbn [network record on_ui]. fold lookup listing.
  destruct listing; reflexivity.
Qed.

Lemma controls_fetch_catch (err : JS.Error) (w0 : World) :
  controls (ui (fetch_catch err w0))
  = controls (setError
                (JS.or_else (JS.message err)
                   "Failed to fetch repositories. Please check your token.")
                (ui w0)).
Proof. unfold fetch_catch. cbn. now rewrite controls_setRepositories. Qed.

Lemma fetch_catch_fields (err : JS.Error) (w0 : World) :
  repositories (ui (fetch_catch err w0)) = [] /\
  filteredRepositories (ui (fetch_catch err w0)) = [] /\
  toasts (ui (fetch_catch err w0))
  = toasts (ui w0)
    ++ [toast_error (JS.or_else (JS.message err) "Failed to fetch repositories")] /\
  network (fetch_catch err w0) = network w0.
Proof.
  unfold fetch_catch. cbn.
  rewrite repositories_setRepositories, filteredRepositories_setRepositories,
    toasts_setRepositories, derive_nil.
  repeat split.
Qed.

(** X8.  Whatever the remote answers, [fetchRepositories] ends with
    [loading] false and [success] empty, adds exactly one notification,
    and leaves the credential, the query, the configuration and the two
    flags of the batch as they were.  The error is empty exactly when the
    credential was verified and the listing returned.  Afterwards no item
    is selected, so the Delete Selected button is disabled. *)
Theorem fetch_end_state :
  loading (ui (fetchRepositories R w)) = false /\
  success (ui (fetchRepositories R w)) = "" /\
  token (ui (fetchRepositories R w)) = token (ui w) /\
  searchTerm (ui (fetchRepositories R w)) = searchTerm (ui w) /\
  filters (ui (fetchRepositories R w)) = filters (ui w) /\
  deleteInProgress (ui (fetchRepositories R w)) = deleteInProgress (ui w) /\
  deleteConfirmationOpen (ui (fetchRepositories R w))
  = deleteConfirmationOpen (ui w) /\
  (exists t, toasts (ui (fetchRepositories R w)) = toasts (ui w) ++ [t]) /\
  (error (ui (fetchRepositories R w)) = "" <->
   exists u data,
     verify_outcome (respond_user R (token (ui w)) (network w)) = inr u /\
     respond_repos R (token (ui w))
       (network w ++ [Sent GET_user;
                      Settled GET_user
                        (failure_of (respond_user R (token (ui w)) (network w)))])
     = inr data) /\
  selectedRepositories (ui (fetchRepositories R w)) = [] /\
  deleteButton_disabled (ui (fetchRepositories R w)) = true.
Proof.
  assert (Hsel : selectedRepositories (ui (fetchRepositories R w)) = []).
  { unfold selectedRepositories. rewrite repositories_fetchRepositories.
    destruct (verify_outcome _); [reflexivity|].
    destruct (respond_repos R _ _); [reflexivity|].
    apply filter_nothing. intros r Hr.
    apply in_map_iff in Hr as (a & <- & _). reflexivity. }
  assert (Hbtn : deleteButton_disabled (ui (fetchRepositories R w)) = true).
  { unfold deleteButton_disabled. apply existsb_false_filter in Hsel.
    rewrite Hsel. apply orb_true_r. }
  assert (Hnonempty : forall err : JS.Error,
             JS.or_else (JS.message err)
               "Failed to fetch repositories. Please check your token." <> "").
  { intros err E.
    assert (T : JS.truthy (JS.or_else (JS.message err)
                  "Failed to fetch repositories. Please check your token.") = true)
      by now apply truthy_or_else.
    rewrite E in T. discriminate. }
  rewrite fetchRepositories_cases in Hsel, Hbtn |- *. fold tok lookup listing.
  revert Hsel Hbtn.
  destruct (verify_outcome (respond_user R tok (network w))) as [err | u].
  - intros Hsel Hbtn.
    pose proof (controls_fetch_catch err w1) as Hc.
    destruct (fetch_catch_fields err w1) as (_ & _ & Ht & _).
    apply controls_eq in Hc as (Htok & Hload & Herr & Hsuc & Hdip & Hst & Hopen & Hfil).
    cbn [ui on_ui loading setLoading success token searchTerm filters
           deleteInProgress deleteConfirmationOpen toasts error].
    rewrite Htok, Hsuc, Hst, Hopen, Hfil, Hdip, Ht, Herr.
    repeat split; try reflexivity; try assumption.
    + eexists. reflexivity.
    + cbn. intros E. now apply Hnonempty in E.
    + intros (u & data & E & _). discriminate.
  - destruct listing as [err | data] eqn:El; intros Hsel Hbtn.
    + pose proof (controls_fetch_catch err w2) as Hc.
      destruct (fetch_catch_fields err w2) as (_ & _ & Ht & _).
      apply controls_eq in Hc as (Htok & Hload & Herr & Hsuc & Hdip & Hst & Hopen & Hfil).
      cbn [ui on_ui loading setLoading success token searchTerm filters
             deleteInProgress deleteConfirmationOpen toasts error].
      rewrite Htok, Hsuc, Hst, Hopen, Hfil, Hdip, Ht, Herr.
      repeat split; try reflexivity; try assumption.
      * eexists. reflexivity.
      * cbn. intros E. now apply Hnonempty in E.
      * intros (u' & data & _ & E). discriminate.
    + pose proof (controls_setRepositories (fun _ => map of_api data) (ui w2)) as Hc.
      apply controls_eq in Hc as (Htok & Hload & Herr & Hsuc & Hdip & Hst & Hopen & Hfil).
      cbn [ui on_ui loading setLoading success token searchTerm filters
             deleteInProgress deleteConfirmationOpen toasts error toast].
      rewrite Htok, Hsuc, Hst, Hopen, Hfil, Hdip, Herr, toasts_setRepositories.
      repeat split; try reflexivity; try assumption.
      * eexists. reflexivity.
      * intros _. now exists u, data.
Qed.
End FetcherCases.

Lemma owners_app (l1 l2 : list Event) :
  owners (l1 ++ l2) = owners l1 ++ owners l2.
Proof.
  induction l1 as [|e l1 IH]; simpl; [reflexivity|].
  destruct e as [[| |owner repo]| |]; simpl; now rewrite IH.
Qed.

Lemma delays_app (l1 l2 : list Event) :
  delays (l1 ++ l2) = delays l1 ++ delays l2.
Proof.
  induction l1 as [|e l1 IH]; simpl; [reflexivity|].
  destruct e as [[| |owner repo]| |]; simpl; now rewrite IH.
Qed.

Section FetcherOutcomes.
Context {P : Platform} (R : Remote) (w : World).

(** X9.  When a fetch fails the catalog and the view are emptied and one
    error notification is added.  If the verification failed, the error
    and the notification both carry its message, and the listing is never
    requested; if the listing was rejected they carry the message of the
    rejection, or, when it has none, two different generic texts. *)
Theorem fetch_failure_clears_catalog :
  (forall err,
      snd (verifyTokenPermissions R (token (ui w)) w) = inl err ->
      repositories (ui (fetchRepositories R w)) = [] /\
      filteredRepositories (ui (fetchRepositories R w)) = [] /\
      error (ui (fetchRepositories R w)) = JS.message err /\
      toasts (ui (fetchRepositories R w))
      = toasts (ui w) ++ [toast_error (JS.message err)] /\
      network (fetchRepositories R w)
      = network (fst (verifyTokenPermissions R (token (ui w)) w))) /\
  (forall u err,
      snd (verifyTokenPermissions R (token (ui w)) w) = inr u ->
      respond_repos R (token (ui w))
        (network (fst (verifyTokenPermissions R (token (ui w)) w))) = inl err ->
      repositories (ui (fetchRepositories R w)) = [] /\
      filteredRepositories (ui (fetchRepositories R w)) = [] /\
      error (ui (fetchRepositories R w))
      = JS.or_else (JS.message err)
          "Failed to fetch repositories. Please check your token." /\
      toasts (ui (fetchRepositories R w))
      = toasts (ui w)
        ++ [toast_error (JS.or_else (JS.message err) "Failed to fetch repositories")]).
Proof.
  split.
  - intros err Hv. cbn in Hv.
    destruct (verify_outcome_message _ _ Hv) as [Hm _].
    rewrite fetchRepositories_cases, Hv.
    match goal with
    | |- context [fetch_catch err ?w0] =>
        destruct (fetch_catch_fields err w0) as (Hr & Hf & Ht & Hn);
        pose proof (controls_fetch_catch err w0) as Hc
    end.
    apply controls_eq in Hc as (_ & _ & He & _).
    cbn [ui on_ui repositories filteredRepositories error toasts setLoading network].
    rewrite Hr, Hf, He, Ht, Hn. cbn. rewrite !(or_else_truthy _ _ Hm).
    repeat split.
  - intros u err Hv Hl. cbn in Hv, Hl.
    rewrite fetchRepositories_cases, Hv, Hl.
    match goal with
    | |- context [fetch_catch err ?w0] =>
        destruct (fetch_catch_fields err w0) as (Hr & Hf & Ht & Hn);
        pose proof (controls_fetch_catch err w0) as Hc
    end.
    apply controls_eq in Hc as (_ & _ & He & _).
    cbn [ui on_ui repositories filteredRepositories error toasts setLoading].
    rewrite Hr, Hf, He, Ht. repeat split.
Qed.

(** X10.  What a fetch adds to the network log is sequential, starts with
    the identity lookup, holds exactly one lookup, no deletion and no
    timer, and holds the listing request, for the owner's repositories,
    a hundred per page, most recently updated first, exactly when the
    credential was verified. *)
Theorem fetch_requests :
  exists log,
    network (fetchRepositories R w) = network w ++ log /\
    sequential log /\
    deletions log = [] /\ owners log = [] /\ delays log = [] /\
    lookups log = 1%nat /\
    match snd (verifyTokenPermissions R (token (ui w)) w) with
    | inl _ =>
        log = [Sent GET_user;
               Settled GET_user
                 (failure_of (respond_user R (token (ui w)) (network w)))]
    | inr _ =>
        exists fl,
          log = [Sent GET_user; Settled GET_user None;
                 Sent (GET_user_repos 100 "updated" "owner");
                 Settled (GET_user_repos 100 "updated" "owner") fl]
    end.
Proof.
  exists (fetch_events R (token (ui w)) (network w)).
  split; [apply network_fetchRepositories|].
  split; [apply sequential_fetch_events|].
  split; [apply deletions_fetch_events|].
  cbn [snd verifyTokenPermissions request_user].
  unfold fetch_events, verify_outcome, verify_try.
  destruct (respond_user R (token (ui w)) (network w)) as [e | [header login]].
  - repeat split.
  - destruct (negb (hasDeleteScope (JS.opt_or_else header ""))).
    + repeat split.
    + repeat split. eexists. reflexivity.
Qed.

(** X11.  After a successful fetch the catalog has one item per element
    of the listing, in the order of the listing and with its identifier;
    the view is derived from it under the query and the configuration in
    force; the error is empty; and the one notification added reports the
    number of items loaded and the login. *)
Theorem fetch_success_state (u : string) (data : list ApiRepository) :
  snd (verifyTokenPermissions R (token (ui w)) w) = inr u ->
  respond_repos R (token (ui w))
    (network (fst (verifyTokenPermissions R (token (ui w)) w))) = inr data ->
  map id (repositories (ui (fetchRepositories R w))) = map api_id data /\
  map name (repositories (ui (fetchRepositories R w))) = map api_name data /\
  List.length (repositories (ui (fetchRepositories R w))) = List.length data /\
  filteredRepositories (ui (fetchRepositories R w))
  = derive (map of_api data) (searchTerm (ui w)) (filters (ui w)) /\
  error (ui (fetchRepositories R w)) = "" /\
  toasts (ui (fetchRepositories R w))
  = toasts (ui w)
    ++ [toast_success
          ("Successfully loaded " ++ JS.show_nat (List.length data)
           ++ " repositories for " ++ u)%string].
Proof.
  intros Hv Hl. cbn in Hv, Hl.
  rewrite fetchRepositories_cases, Hv, Hl.
  cbn [ui on_ui repositories filteredRepositories error toasts setLoading toast].
  rewrite repositories_setRepositories, filteredRepositories_setRepositories,
    error_setRepositories, toasts_setRepositories.
  rewrite !map_map, length_map. repeat split.
Qed.
End FetcherOutcomes.

Lemma fetch_failure_clears_catalog_witness :
  repositories (ui (fetchRepositories (P := ordinalPlatform) badRemote
                      (worldOf [repoA; repoC]))) = [] /\
  error (ui (fetchRepositories (P := ordinalPlatform) badRemote
               (worldOf [repoA; repoC])))
  = "Invalid token. Please check your token and try again.".
Proof.
  destruct (fetch_failure_clears_catalog (P := ordinalPlatform) badRemote
              (worldOf [repoA; repoC])) as (H & _).
  destruct (H (JS.new_Error "Invalid token. Please check your token and try again.")
              eq_refl) as (Hr & _ & He & _).
  split; [exact Hr | exact He].
Defined.

Lemma fetch_success_state_witness :
  toasts (ui (fetchRepositories (P := ordinalPlatform) goodRemote
                (worldOf [repoB; repoC])))
  = [toast_success "Successfully loaded 1 repositories for octocat"].
Proof.
  destruct (fetch_success_state (P := ordinalPlatform) goodRemote
              (worldOf [repoB; repoC]) "octocat" [apiA] eq_refl eq_refl)
    as (_ & _ & _ & _ & _ & H).
  exact H.
Defined.

(** ** The loop: what it leaves alone and what it reports *)

Lemma Forall2_map_right_in {A B : Type} (R : A -> B -> Prop) (g : A -> B)
  (l : list A) :
  (forall x, In x l -> R x (g x)) -> Forall2 R l (map g l).
Proof.
  induction l as [|a l IH]; intros H; simpl; constructor.
  - apply H. now left.
  - apply IH. intros x Hx. apply H. now right.
Qed.

Lemma NoDup_map_injective {A B : Type} (g : A -> B) (l : list A) (a b : A) :
  NoDup (map g l) -> In a l -> In b l -> g a = g b -> a = b.
Proof.
  induction l as [|x l IH]; intros Hnd Ha Hb E; [destruct Ha|].
  simpl in Hnd. inversion Hnd as [|? ? Hnotin Hnd']; subst.
  destruct Ha as [-> | Ha], Hb as [-> | Hb]; auto.
  - exfalso. apply Hnotin. rewrite E. now apply in_map.
  - exfalso. apply Hnotin. rewrite <- E. now apply in_map.
Qed.

Lemma same_but_status_settle_one (o : Repository * option JS.Error)
  (r r' : Repository) :
  same_but_status r r' -> same_but_status r (settle_one o r').
Proof.
  intros H. unfold settle_one. destruct (id r' =? id (fst o)); [|exact H].
  destruct (snd o); exact H.
Qed.

Lemma same_but_status_fold (outs : list (Repository * option JS.Error))
  (r r' : Repository) :
  same_but_status r r' ->
  same_but_status r (fold_left (fun r o => settle_one o r) outs r').
Proof.
  revert r'. induction outs as [|o outs IH]; intros r' H; simpl; [exact H|].
  apply IH. now apply same_but_status_settle_one.
Qed.

Lemma same_but_status_pending (r : Repository) :
  same_but_status r
    (if is_selected r then with_deleteStatus DeleteStatus.pending r else r).
Proof. destruct (is_selected r); repeat split. Qed.

Section LoopReports.
Context {P : Platform} (R : Remote).
Variables tok u : string.

Lemma deleteOne_reports (repo : Repository) (b : Batch) :
  let res := respond_delete R tok (network (world b)) u (name repo) in
  controls (ui (world (deleteOne R tok u repo b))) = controls (ui (world b)) /\
  toasts (ui (world (deleteOne R tok u repo b)))
  = toasts (ui (world b)) ++ [batch_toast (repo, res)].
Proof.
  unfold deleteOne, request_delete, batch_toast, failed. cbv zeta.
  destruct (respond_delete R tok _ u (name repo)) as [err|];
    cbn [world ui on_ui record network fst snd];
    rewrite controls_toast, controls_setRepositories;
    cbn [toasts toast]; rewrite toasts_setRepositories;
    split; reflexivity.
Qed.

Lemma deleteLoop_reports (sel : list Repository) (b : Batch) :
  let outs := outcomes R tok u sel (network (world b)) in
  controls (ui (world (deleteLoop R tok u sel b))) = controls (ui (world b)) /\
  toasts (ui (world (deleteLoop R tok u sel b)))
  = toasts (ui (world b)) ++ map batch_toast outs.
Proof.
  revert b. induction sel as [|repo sel IH]; intros b; cbv zeta.
  - simpl. now rewrite app_nil_r.
  - destruct (deleteOne_reports repo b) as (Hc & Ht).
    destruct (deleteOne_eq R tok u repo b) as (Hn & _).
    destruct (IH (deleteOne R tok u repo b)) as (Hc' & Ht').
    cbv zeta in *. simpl deleteLoop. simpl outcomes.
    rewrite Hn in Ht'. rewrite Hc', Ht', Hc, Ht, <- app_assoc.
    split; reflexivity.
Qed.

Lemma runBatch_reports (sel : list Repository) (w : World) :
  let outs := outcomes R tok u sel (network w) in
  controls (ui (world (runBatch R tok u sel w))) = controls (ui w) /\
  toasts (ui (world (runBatch R tok u sel w)))
  = toasts (ui w) ++ map batch_toast outs.
Proof.
  unfold runBatch. cbv zeta.
  destruct (deleteLoop_reports sel
              (mkBatch (on_ui (setRepositories markPending) w) 0 0)) as (Hc & Ht).
  cbn [world network on_ui ui] in *.
  rewrite Hc, Ht, controls_setRepositories, toasts_setRepositories.
  split; reflexivity.
Qed.

Lemma runBatch_catalog (sel : list Repository) (w : World) :
  repositories (ui (world (runBatch R tok u sel w)))
  = map (fun r => fold_left (fun r o => settle_one o r)
                    (outcomes R tok u sel (network w))
                    (if is_selected r
                     then with_deleteStatus DeleteStatus.pending r else r))
      (repositories (ui w)).
Proof.
  destruct (runBatch_eq R tok u sel w) as (_ & Hr & _).
  cbv zeta in Hr. rewrite Hr, fold_settle_item.
  unfold markPending. now rewrite map_map.
Qed.

(** X12.  Along the loop of a batch over the selected items, every item
    of the catalog keeps its place and all its fields but [deleteStatus]
    and [errorMessage]; nothing but the catalog, the view, the languages
    and the notifications of the component changes; and on a catalog with
    unique identifiers an item that is not selected is not changed at
    all. *)
Theorem batch_touches_status_only (w : World) :
  Forall2 same_but_status (repositories (ui w))
    (repositories
       (ui (world (runBatch R tok u (filter is_selected (repositories (ui w))) w)))) /\
  controls
    (ui (world (runBatch R tok u (filter is_selected (repositories (ui w))) w)))
  = controls (ui w) /\
  (NoDup (map id (repositories (ui w))) ->
   Forall2 (fun r r' => is_selected r = false -> r' = r) (repositories (ui w))
     (repositories
        (ui (world (runBatch R tok u (filter is_selected (repositories (ui w))) w))))).
Proof.
  rewrite runBatch_catalog. split; [|split].
  - apply Forall2_map_right. intros r.
    apply same_but_status_fold, same_but_status_pending.
  - apply runBatch_reports.
  - intros Hnd. apply Forall2_map_right_in. intros r Hr Hsel. rewrite Hsel.
    apply fold_settle_one_untouched. intros o Ho E.
    assert (Hin : In (fst o) (filter is_selected (repositories (ui w)))).
    { rewrite <- (map_fst_outcomes R tok u _ (network w)). now apply in_map. }
    apply filter_In in Hin as [Hin Hs].
    assert (fst o = r) by (eapply NoDup_map_injective; eauto).
    congruence.
Qed.

(** X13.  On a catalog with unique identifiers, when the loop ends every
    selected item has status [success] or [error]: none is left
    [pending]. *)
Theorem batch_resolves_selected (w : World) :
  NoDup (map id (repositories (ui w))) ->
  forall r,
    In r (repositories
            (ui (world (runBatch R tok u
                          (filter is_selected (repositories (ui w))) w)))) ->
    is_selected r = true ->
    resolved r /\ deleteStatus r <> Some DeleteStatus.pending.
Proof.
  intros Hnd r Hr Hsel. rewrite runBatch_catalog in Hr.
  apply in_map_iff in Hr as (r0 & <- & Hr0).
  set (sel := filter is_selected (repositories (ui w))) in *.
  set (outs := outcomes R tok u sel (network w)) in *.
  set (r1 := if is_selected r0
             then with_deleteStatus DeleteStatus.pending r0 else r0) in *.
  assert (Hsame : same_but_status r0 (fold_left (fun r o => settle_one o r) outs r1)).
  { apply same_but_status_fold, same_but_status_pending. }
  assert (Hs0 : is_selected r0 = true).
  { destruct Hsame as (_ & _ & _ & _ & _ & _ & _ & _ & _ & _ & Hs).
    unfold is_selected in *. now rewrite <- Hs. }
  assert (Hin : In r0 sel) by (apply filter_In; auto).
  rewrite <- (map_fst_outcomes R tok u sel (network w)) in Hin.
  apply in_map_iff in Hin as (o & Ho & Hino). fold outs in Hino.
  assert (Hid : id r1 = id (fst o)).
  { rewrite Ho. unfold r1. now destruct (is_selected r0). }
  rewrite (fold_settle_one_touched outs o r1); auto.
  - unfold settle_one. apply Z.eqb_eq in Hid. rewrite Hid.
    destruct (snd o); unfold resolved; cbn; split; auto; discriminate.
  - now apply NoDup_outcome_ids.
Qed.

(** X14.  The loop notifies once per selected item, in the order of the
    loop: a success notification naming the item when its deletion was
    accepted, an error notification naming it when it was rejected. *)
Theorem batch_notifies_each_item (w : World) :
  toasts (ui (world (runBatch R tok u (filter is_selected (repositories (ui w))) w)))
  = toasts (ui w)
    ++ map batch_toast
         (outcomes R tok u (filter is_selected (repositories (ui w))) (network w)) /\
  List.length
    (map batch_toast
       (outcomes R tok u (filter is_selected (repositories (ui w))) (network w)))
  = List.length (selectedRepositories (ui w)).
Proof.
  split; [apply runBatch_reports|].
  rewrite length_map. unfold selectedRepositories.
  rewrite <- (length_map fst), map_fst_outcomes. reflexivity.
Qed.
End LoopReports.

Lemma batch_touches_status_only_witness :
  Forall2 (fun r r' => is_selected r = false -> r' = r) [repoA; repoB; repoC]
    (repositories
       (ui (world (runBatch (P := ordinalPlatform) goodRemote "ghp_token" "octocat"
                     (filter is_selected
                        (repositories (ui (worldOf [repoA; repoB; repoC]))))
                     (worldOf [repoA; repoB; repoC]))))).
Proof.
  assert (Hnd : NoDup (map id (repositories (ui (worldOf [repoA; repoB; repoC])))))
    by solve_NoDup.
  destruct (batch_touches_status_only (P := ordinalPlatform) goodRemote
              "ghp_token" "octocat" (worldOf [repoA; repoB; repoC])) as (_ & _ & H).
  exact (H Hnd).
Defined.

Lemma batch_resolves_selected_witness :
  resolved (with_error "Must have admin rights" (with_selected true repoB)) /\
  deleteStatus (with_error "Must have admin rights" (with_selected true repoB))
  <> Some DeleteStatus.pending.
Proof.
  pose (w := on_ui (toggleSelectAll (P := ordinalPlatform) true)
               (worldOf [repoA; repoB])).
  assert (Hnd : NoDup (map id (repositories (ui w)))) by solve_NoDup.
  apply (batch_resolves_selected (P := ordinalPlatform) goodRemote
           "ghp_token" "octocat" w Hnd).
  - vm_compute. right. left. reflexivity.
  - reflexivity.
Defined.

(** ** The requests of a batch *)

Lemma owners_batch_events (u : string) (outs : list (Repository * option JS.Error)) :
  owners (batch_events u outs) = map (fun _ => u) outs.
Proof.
  induction outs as [|[repo res] outs IH]; [reflexivity|].
  change (batch_events u ((repo, res) :: outs))
    with (delete_events u repo res ++ batch_events u outs).
  rewrite owners_app, IH. destruct res; reflexivity.
Qed.

Lemma delays_batch_events (u : string) (outs : list (Repository * option JS.Error)) :
  delays (batch_events u outs)
  = map (fun _ => 1000) (filter (fun o => negb (failed o)) outs).
Proof.
  induction outs as [|[repo res] outs IH]; [reflexivity|].
  change (batch_events u ((repo, res) :: outs))
    with (delete_events u repo res ++ batch_events u outs).
  rewrite delays_app, IH. destruct res; reflexivity.
Qed.

Lemma map_const_repeat {A B : Type} (c : B) (l : list A) :
  map (fun _ => c) l = repeat c (List.length l).
Proof. induction l as [|a l IH]; simpl; [reflexivity | now rewrite IH]. Qed.

Lemma owners_fetch_events (R : Remote) (tok : string) (log : list Event) :
  owners (fetch_events R tok log) = [].
Proof. unfold fetch_events. destruct (verify_outcome _); reflexivity. Qed.

Lemma delays_fetch_events (R : Remote) (tok : string) (log : list Event) :
  delays (fetch_events R tok log) = [].
Proof. unfold fetch_events. destruct (verify_outcome _); reflexivity. Qed.

(** X15.  In a run of [confirmDelete] whose credential is verified, the
    owner named by every deletion is the login that the identity lookup
    of this run returned, and the run waits one second after each accepted
    deletion and at no other time: as many timers of 1000 ms as
    [successCount], none after a rejected deletion. *)
Theorem batch_owner_and_delays {P : Platform} (R : Remote) (w : World) (u : string) :
  snd (verifyTokenPermissions R (token (ui w)) w) = inr u ->
  let sel := filter is_selected (repositories (ui w)) in
  let w1 := fst (verifyTokenPermissions R (token (ui w)) (confirm_prologue w)) in
  let b := runBatch R (token (ui w)) u sel w1 in
  (exists header, respond_user R (token (ui w)) (network w) = inr (header, u)) /\
  exists log,
    network (confirmDelete R w) = network w ++ log /\
    owners log = map (fun _ => u) sel /\
    delays log = repeat 1000 (successCount b).
Proof.
  intros Hv sel w1 b. split.
  - cbn in Hv. unfold verify_outcome, verify_try in Hv.
    destruct (respond_user R (token (ui w)) (network w)) as [e | [header login]];
      [discriminate|].
    destruct (negb _); [discriminate|]. injection Hv as ->. now exists header.
  - pose proof (network_confirmDelete R w) as H. cbv zeta in H.
    rewrite Hv in H. eexists. split; [exact H|].
    destruct (runBatch_eq R (token (ui w)) u sel w1) as (_ & _ & _ & Hs & _).
    cbv zeta in Hs. fold b in Hs.
    change (network w1)
      with (network w ++ [Sent GET_user;
                          Settled GET_user
                            (failure_of (respond_user R (token (ui w)) (network w)))])
      in Hs.
    fold sel. rewrite !owners_app, !delays_app.
    rewrite owners_batch_events, delays_batch_events, Hs.
    split.
    + cbn [owners app].
      destruct (0 <? _)%nat; [|rewrite owners_fetch_events]; rewrite app_nil_r.
      * rewrite <- (map_fst_outcomes R (token (ui w)) u sel) at 2.
        now rewrite map_map.
      * rewrite <- (map_fst_outcomes R (token (ui w)) u sel) at 2.
        now rewrite map_map.
    + cbn [delays app].
      destruct (0 <? _)%nat; [|rewrite delays_fetch_events]; rewrite app_nil_r.
      * apply map_const_repeat.
      * apply map_const_repeat.
Qed.

Lemma batch_owner_and_delays_witness :
  let w := on_ui (toggleSelectAll (P := ordinalPlatform) true)
             (worldOf [repoA; repoB; repoC]) in
  owners (network (confirmDelete (P := ordinalPlatform) goodRemote w))
  = ["octocat"; "octocat"; "octocat"] /\
  delays (network (confirmDelete (P := ordinalPlatform) goodRemote w))
  = [1000; 1000].
Proof.
  intros w.
  destruct (batch_owner_and_delays (P := ordinalPlatform) goodRemote w "octocat"
              eq_refl) as (_ & log & Hn & Ho & Hd).
  rewrite Hn. change (network w) with (@nil Event). cbn [app].
  rewrite Ho, Hd. split; reflexivity.
Defined.

(** ** How a run of [confirmDelete] ends *)

Section RunEnds.
Context {P : Platform} (R : Remote).

Lemma error_fetchRepositories (w : World) :
  error (ui (fetchRepositories R w))
  = match verify_outcome (respond_user R (token (ui w)) (network w)) with
    | inl err =>
        JS.or_else (JS.message err)
          "Failed to fetch repositories. Please check your token."
    | inr _ =>
        match respond_repos R (token (ui w))
                (network w ++ [Sent GET_user;
                               Settled GET_user
                                 (failure_of (respond_user R (token (ui w)) (network w)))])
        with
        | inl err =>
            JS.or_else (JS.message err)
              "Failed to fetch repositories. Please check your token."
        | inr _ => ""
        end
    end.
Proof.
  rewrite fetchRepositories_cases.
  destruct (verify_outcome _) as [err | u].
  - cbn. now rewrite error_setRepositories.
  - destruct (respond_repos R _ _) as [err | data]; cbn;
      now rewrite error_setRepositories.
Qed.

Lemma fetchRepositories_controls (w : World) :
  controls (ui (fetchRepositories R w))
  = (token (ui w), false, error (ui (fetchRepositories R w)), "",
     deleteInProgress (ui w), searchTerm (ui w),
     deleteConfirmationOpen (ui w), filters (ui w)).
Proof.
  rewrite error_fetchRepositories, fetchRepositories_cases.
  destruct (verify_outcome _) as [err | u].
  - match goal with
    | |- context [fetch_catch err ?w0] =>
        pose proof (controls_fetch_catch err w0) as Hc
    end.
    apply controls_eq in Hc as (Ht & _ & He & Hs & Hd & Hq & Ho & Hf).
    unfold controls.
    cbn [ui on_ui token loading error success deleteInProgress searchTerm
           deleteConfirmationOpen filters setLoading].
    now rewrite Ht, He, Hs, Hd, Hq, Ho, Hf.
  - destruct (respond_repos R _ _) as [err | data].
    + match goal with
      | |- context [fetch_catch err ?w0] =>
          pose proof (controls_fetch_catch err w0) as Hc
      end.
      apply controls_eq in Hc as (Ht & _ & He & Hs & Hd & Hq & Ho & Hf).
      unfold controls.
      cbn [ui on_ui token loading error success deleteInProgress searchTerm
             deleteConfirmationOpen filters setLoading].
      now rewrite Ht, He, Hs, Hd, Hq, Ho, Hf.
    + cbn [ui on_ui].
      match goal with
      | |- context [setRepositories ?g ?st0] =>
          pose proof (controls_setRepositories g st0) as Hc
      end.
      apply controls_eq in Hc as (Ht & _ & He & Hs & Hd & Hq & Ho & Hf).
      unfold controls.
      cbn [ui on_ui token loading error success deleteInProgress searchTerm
             deleteConfirmationOpen filters setLoading toast].
      now rewrite Ht, He, Hs, Hd, Hq, Ho, Hf.
Qed.

Lemma confirmDelete_controls (w : World) :
  exists (l : bool) (e : string),
    controls (ui (confirmDelete R w))
    = (token (ui w), l, e, "", false, searchTerm (ui w), false, filters (ui w)).
Proof.
  rewrite confirmDelete_eq. cbv zeta.
  destruct (snd (verifyTokenPermissions R (token (ui w)) w)) as [err | u].
  - do 2 eexists. reflexivity.
  - match goal with
    | |- context [runBatch R ?t u ?s ?w1] =>
        destruct (runBatch_reports R t u s w1) as (Hc & _);
        destruct (runBatch_eq R t u s w1) as (_ & _ & Ht & _);
        set (b := runBatch R t u s w1) in *
    end.
    apply controls_eq in Hc as (Htok & Hl & He & Hs & Hd & Hq & Ho & Hf).
    cbn [ui on_ui record confirm_prologue token loading error success
           deleteInProgress searchTerm deleteConfirmationOpen filters
           setDeleteConfirmationOpen setDeleteInProgress setError setSuccess]
      in Htok, Hl, He, Hs, Hd, Hq, Ho, Hf.
    unfold report. destruct (0 <? failureCount b)%nat.
    + do 2 eexists. unfold controls.
      cbn [ui on_ui token loading error success deleteInProgress searchTerm
             deleteConfirmationOpen filters setDeleteInProgress setError].
      rewrite Htok, Hs, Hq, Ho, Hf. reflexivity.
    + do 2 eexists. unfold controls.
      cbn [ui on_ui token loading error success deleteInProgress searchTerm
             deleteConfirmationOpen filters setDeleteInProgress].
      match goal with
      | |- context [fetchRepositories R ?w0] =>
          pose proof (fetchRepositories_controls w0) as Hc
      end.
      apply controls_is in Hc as (Htok' & Hl' & _ & Hs' & _ & Hq' & Ho' & Hf').
      cbn [ui on_ui token loading error success deleteInProgress searchTerm
             deleteConfirmationOpen filters setSuccess fst snd]
        in Htok', Hl', Hs', Hq', Ho', Hf'.
      rewrite Htok', Hs', Hq', Ho', Hf', Htok, Hq, Ho, Hf. reflexivity.
Qed.

(** X16.  However a run of [confirmDelete] goes, it ends with
    [deleteInProgress] false, the confirmation view closed and [success]
    empty, and with the credential, the query and the configuration as
    they were.  The full-success message is set only just before the
    refetch, which clears it: it never outlives the run. *)
Theorem confirmDelete_end_state (w : World) :
  deleteInProgress (ui (confirmDelete R w)) = false /\
  deleteConfirmationOpen (ui (confirmDelete R w)) = false /\
  success (ui (confirmDelete R w)) = "" /\
  token (ui (confirmDelete R w)) = token (ui w) /\
  searchTerm (ui (confirmDelete R w)) = searchTerm (ui w) /\
  filters (ui (confirmDelete R w)) = filters (ui w).
Proof.
  destruct (confirmDelete_controls w) as (l & e & Hc).
  apply controls_is in Hc as (Ht & _ & _ & Hs & Hd & Hq & Ho & Hf).
  repeat split; assumption.
Qed.

(** X17.  A run of [confirmDelete] over an empty selection, with a
    verified credential, requests no deletion and marks nothing: it goes
    straight to the refetch, so its log holds two identity lookups and
    the catalog it leaves is the one the refetch leaves. *)
Theorem confirmDelete_on_empty_selection (w : World) (u : string) :
  selectedRepositories (ui w) = [] ->
  snd (verifyTokenPermissions R (token (ui w)) w) = inr u ->
  confirmDelete R w
  = on_ui (setDeleteInProgress false)
      (fetchRepositories R
         (on_ui (setSuccess "All selected repositories were deleted successfully!")
            (on_ui (setRepositories markPending)
               (fst (verifyTokenPermissions R (token (ui w))
                       (confirm_prologue w)))))) /\
  markPending (repositories (ui w)) = repositories (ui w) /\
  exists log,
    network (confirmDelete R w) = network w ++ log /\
    deletions log = [] /\ lookups log = 2%nat.
Proof.
  unfold selectedRepositories. intros Hsel Hv. split; [|split].
  - rewrite confirmDelete_eq, Hv, Hsel. reflexivity.
  - unfold markPending. rewrite <- (map_id (repositories (ui w))) at 2.
    apply map_ext_in. intros r Hr.
    destruct (is_selected r) eqn:E; [|reflexivity].
    assert (Hin : In r (filter is_selected (repositories (ui w))))
      by (apply filter_In; auto).
    rewrite Hsel in Hin. destruct Hin.
  - pose proof (network_confirmDelete R w) as H. cbv zeta in H.
    rewrite Hv, Hsel in H. eexists. split; [exact H|].
    cbn [outcomes filter List.length Nat.ltb Nat.leb batch_events flat_map].
    rewrite !deletions_app, !lookups_app, deletions_fetch_events,
      lookups_fetch_events.
    split; reflexivity.
Qed.
End RunEnds.

Lemma confirmDelete_on_empty_selection_witness :
  exists log,
    network (confirmDelete (P := ordinalPlatform) goodRemote (worldOf [repoA; repoB]))
    = network (worldOf [repoA; repoB]) ++ log /\
    deletions log = [] /\ lookups log = 2%nat.
Proof.
  apply (confirmDelete_on_empty_selection (P := ordinalPlatform) goodRemote
           (worldOf [repoA; repoB]) "octocat"); reflexivity.
Defined.

(** ** More on the filter engine *)

Lemma sort_of_sorted {A : Type} (cmp : A -> A -> Z) (l : list A) :
  StronglySorted (fun a b => cmp a b <= 0) l -> JS.sort cmp l = l.
Proof.
  induction 1 as [|a l Hs IH Hall]; simpl; [reflexivity|].
  rewrite IH. destruct l as [|b l]; [reflexivity|]. simpl.
  inversion Hall as [|? ? Hab _]; subst.
  destruct (Z.leb_spec (cmp a b) 0); [reflexivity | lia].
Qed.

Lemma searchFilter_keeps_all {P : Platform} (term : string)
  (l : list Repository) :
  (forall r, In r l -> matching_rule term r) -> searchFilter term l = l.
Proof.
  intros H. unfold searchFilter. destruct (JS.truthy term) eqn:Ht; [|reflexivity].
  apply filter_everything. intros r Hr. apply matchesSearch_spec.
  destruct (H r Hr) as [-> | Hm]; [discriminate | exact Hm].
Qed.

Lemma visibilityFilter_keeps_all (f : Filters.t) (l : list Repository) :
  (forall r, In r l -> visibility_rule f r) -> visibilityFilter f l = l.
Proof.
  intros H. unfold visibilityFilter.
  destruct (Filters.private f) eqn:Hp, (Filters.public f) eqn:Hq; simpl;
    try reflexivity; apply filter_everything; intros r Hr;
    destruct (H r Hr) as [H1 H2].
  - now apply H1.
  - apply negb_true_iff. now apply H2.
Qed.

Lemma languageFilter_keeps_all (f : Filters.t) (l : list Repository) :
  (forall r, In r l -> language_rule f r) -> languageFilter f l = l.
Proof.
  intros H. unfold languageFilter.
  destruct (JS.truthy (Filters.language f)) eqn:Ht; [|reflexivity].
  apply filter_everything. intros r Hr. apply language_is_spec.
  destruct (H r Hr) as [E | E]; [|exact E]. rewrite E in Ht. discriminate.
Qed.

Section EngineMore.
Context {P : Platform}.

(** X18.  Deriving the view of a view, under the same query and
    configuration, gives the same view: a second pass hides nothing more
    and moves nothing (with a consistent collation when the key is the
    name). *)
Theorem derive_idempotent (catalog : list Repository) (term : string)
  (f : Filters.t) :
  (Filters.sortBy f = by_name -> consistent localeCompare) ->
  derive (derive catalog term f) term f = derive catalog term f.
Proof.
  intros Hlc.
  assert (Hrules : forall r, In r (derive catalog term f) ->
             visibility_rule f r /\ language_rule f r /\ matching_rule term r).
  { intros r Hr. now apply derive_In in Hr. }
  unfold derive at 1. cbv zeta.
  rewrite searchFilter_keeps_all by (intros r Hr; now apply Hrules).
  rewrite visibilityFilter_keeps_all by (intros r Hr; now apply Hrules).
  rewrite languageFilter_keeps_all by (intros r Hr; now apply Hrules).
  apply sort_of_sorted. unfold derive. cbv zeta.
  apply sort_sorted. now apply comparator_consistent.
Qed.

(** X19.  The view is made of items of the catalog: it is a rearrangement
    of a sublist of the catalog, never longer than the catalog, and it has
    unique identifiers when the catalog has.  With an empty query, no
    language chosen and the two visibility boxes in the same position,
    nothing is hidden: the view is a rearrangement of the whole
    catalog. *)
Theorem view_within_catalog (catalog : list Repository) (term : string)
  (f : Filters.t) :
  (exists keep, Permutation (filter keep catalog) (derive catalog term f)) /\
  (List.length (derive catalog term f) <= List.length catalog)%nat /\
  (NoDup (map id catalog) -> NoDup (map id (derive catalog term f))) /\
  (term = "" -> Filters.language f = "" ->
   Filters.private f = Filters.public f ->
   Permutation catalog (derive catalog term f)).
Proof.
  destruct (filters_keep_order term f catalog) as (keep & Hk).
  assert (Hp : Permutation (filter keep catalog) (derive catalog term f)).
  { unfold derive. cbv zeta. rewrite Hk. apply sort_perm. }
  split; [now exists keep|]. split; [|split].
  - rewrite <- (Permutation_length Hp). apply filter_length_le.
  - intros Hnd.
    apply (Permutation_NoDup (Permutation_map id Hp)).
    now apply NoDup_map_filter.
  - intros -> Hl Hv. unfold derive, searchFilter, visibilityFilter, languageFilter.
    cbv zeta. rewrite Hl, Hv. cbn [JS.truthy].
    destruct (Filters.public f); cbn [andb negb]; apply sort_perm.
Qed.

(** X20.  The view depends on the query only up to the case of its
    letters, as the platform's [toLowerCase] sees it: on a platform that
    lowers the empty text to itself, as [String.prototype.toLowerCase]
    does, two queries with the same lower-case form give the same view,
    whatever the letters are; and a query and its lower-case form give
    the same view when lowering that form again changes nothing. *)
Theorem query_case_is_ignored (catalog : list Repository) (q1 q2 : string)
  (f : Filters.t) :
  toLowerCase "" = "" ->
  (toLowerCase q1 = toLowerCase q2 ->
   derive catalog q1 f = derive catalog q2 f) /\
  (toLowerCase (toLowerCase q1) = toLowerCase q1 ->
   derive catalog (toLowerCase q1) f = derive catalog q1 f).
Proof.
  intros H0.
  assert (Hall : forall q, toLowerCase q = "" ->
                           forall l, filter (matchesSearch q) l = l).
  { intros q Hq l. apply filter_everything. intros r _.
    unfold matchesSearch. rewrite Hq, includes_empty. reflexivity. }
  assert (Hsame : forall a b, toLowerCase a = toLowerCase b ->
                              derive catalog a f = derive catalog b f).
  { intros a b H. unfold derive. cbv zeta. f_equal. f_equal. f_equal.
    unfold searchFilter.
    destruct (JS.truthy a) eqn:Ha, (JS.truthy b) eqn:Hb.
    - apply filter_ext. intros r. unfold matchesSearch. now rewrite H.
    - apply truthy_false in Hb. subst b. apply Hall. now rewrite H.
    - apply truthy_false in Ha. subst a. symmetry. apply Hall. now rewrite <- H.
    - reflexivity. }
  split; [apply Hsame|]. intros H. now apply Hsame.
Qed.

(** X21.  Every language the list of available languages offers selects
    something: with that language chosen, an empty query and the
    visibility boxes in the same position, the view holds an item of that
    language; and when the language is not the empty string every item of
    the view has it. *)
Theorem offered_language_selects (catalog : list Repository) (l : string)
  (f : Filters.t) :
  In l (uniqueLanguages catalog) ->
  Filters.language f = l ->
  Filters.private f = Filters.public f ->
  (exists r, In r (derive catalog "" f) /\ language r = Some l) /\
  (l <> "" -> forall r, In r (derive catalog "" f) -> language r = Some l).
Proof.
  intros Hl Hf Hv. split.
  - apply uniqueLanguages_In in Hl as (r & Hr & E).
    exists r. split; [|exact E]. apply derive_In.
    split; [exact Hr|]. split; [|split].
    + unfold visibility_rule. rewrite Hv.
      split; intros [H1 H2]; congruence.
    + right. now rewrite Hf.
    + now left.
  - intros Hne r Hr. apply derive_In in Hr as (_ & _ & [E | E] & _).
    + congruence.
    + now rewrite Hf in E.
Qed.
End EngineMore.

Lemma derive_idempotent_witness :
  derive (P := ordinalPlatform)
    (derive (P := ordinalPlatform) [repoC; repoB; repoA] "a"
       (Filters.mk false false by_name ""))
    "a" (Filters.mk false false by_name "")
  = [repoA; repoB; repoC].
Proof.
  rewrite (derive_idempotent (P := ordinalPlatform) [repoC; repoB; repoA] "a"
             (Filters.mk false false by_name "")
             (fun _ => defaultCompare_consistent)).
  reflexivity.
Defined.

Lemma view_within_catalog_witness :
  Permutation [repoC; repoB; repoA]
    (derive (P := ordinalPlatform) [repoC; repoB; repoA] "" Filters.initial).
Proof.
  apply (view_within_catalog (P := ordinalPlatform) [repoC; repoB; repoA] ""
           Filters.initial); reflexivity.
Defined.

Lemma query_case_is_ignored_witness :
  derive (P := ordinalPlatform) [repoA; repoB; repoC] "PEND" Filters.initial
  = derive (P := ordinalPlatform) [repoA; repoB; repoC] "pend" Filters.initial /\
  derive (P := ordinalPlatform) [repoA; repoB; repoC]
    (toLowerCase (Platform := ordinalPlatform) "PEND") Filters.initial
  = derive (P := ordinalPlatform) [repoA; repoB; repoC] "PEND" Filters.initial.
Proof.
  destruct (query_case_is_ignored (P := ordinalPlatform) [repoA; repoB; repoC]
              "PEND" "pend" Filters.initial eq_refl) as [H1 H2].
  split; [apply H1; reflexivity | apply H2; reflexivity].
Defined.

Lemma offered_language_selects_witness :
  exists r,
    In r (derive (P := ordinalPlatform) [repoA; repoB; repoC] ""
            (Filters.mk false false updated "Go")) /\
    language r = Some "Go".
Proof.
  apply (offered_language_selects (P := ordinalPlatform) [repoA; repoB; repoC] "Go"
           (Filters.mk false false updated "Go")).
  - vm_compute. auto.
  - reflexivity.
  - reflexivity.
Defined.

(** ** The view and the languages follow the catalog *)

Section InSync.
Context {P : Platform}.

Lemma in_sync_setRepositories (f : list Repository -> list Repository) (st : State) :
  in_sync (setRepositories f st).
Proof.
  split; [apply view_in_sync_setRepositories | apply languages_in_sync_setRepositories].
Qed.

(** A state that shows the same catalog, view, query, configuration and
    languages is in sync when the other is. *)
Lemma in_sync_same (st st' : State) :
  repositories st' = repositories st ->
  filteredRepositories st' = filteredRepositories st ->
  searchTerm st' = searchTerm st ->
  filters st' = filters st ->
  languages st' = languages st ->
  in_sync st -> in_sync st'.
Proof.
  unfold in_sync, view_in_sync, languages_in_sync.
  intros -> -> -> -> ->. tauto.
Qed.

Lemma in_sync_removeFromSelection (id0 : Z) (st : State) :
  in_sync (removeFromSelection id0 st).
Proof.
  rewrite removeFromSelection_eq.
  pose proof (in_sync_setRepositories
                (map (fun repo => if id repo =? id0
                                  then with_selected false repo else repo)) st) as H.
  destruct (_ =? 0)%nat; revert H; apply in_sync_same; reflexivity.
Qed.

Lemma in_sync_fetch_catch (err : JS.Error) (w : World) :
  in_sync (ui (fetch_catch err w)).
Proof. unfold fetch_catch. cbn [ui on_ui]. apply in_sync_setRepositories. Qed.

Lemma in_sync_fetchRepositories (R : Remote) (w : World) :
  in_sync (ui (fetchRepositories R w)).
Proof.
  rewrite fetchRepositories_cases.
  destruct (verify_outcome _) as [err | u].
  - match goal with
    | |- context [fetch_catch err ?w0] => pose proof (in_sync_fetch_catch err w0) as H
    end.
    revert H. apply in_sync_same; reflexivity.
  - destruct (respond_repos R _ _) as [err | data].
    + match goal with
      | |- context [fetch_catch err ?w0] => pose proof (in_sync_fetch_catch err w0) as H
      end.
      revert H. apply in_sync_same; reflexivity.
    + cbn [ui on_ui].
      match goal with
      | |- context [setRepositories ?g ?st0] =>
          pose proof (in_sync_setRepositories g st0) as H
      end.
      revert H. apply in_sync_same; reflexivity.
Qed.

Lemma in_sync_deleteOne (R : Remote) (tok u : string) (repo : Repository)
  (b : Batch) :
  in_sync (ui (world (deleteOne R tok u repo b))).
Proof.
  unfold deleteOne, request_delete.
  destruct (respond_delete R tok _ u (name repo)) as [err|];
    cbn [world ui on_ui record];
    match goal with
    | |- context [setRepositories ?g ?st0] =>
        pose proof (in_sync_setRepositories g st0) as H
    end;
    revert H; apply in_sync_same; reflexivity.
Qed.

Lemma in_sync_deleteLoop (R : Remote) (tok u : string) (sel : list Repository)
  (b : Batch) :
  in_sync (ui (world b)) -> in_sync (ui (world (deleteLoop R tok u sel b))).
Proof.
  revert b. induction sel as [|repo sel IH]; intros b H; simpl; [exact H|].
  apply IH, in_sync_deleteOne.
Qed.

Lemma in_sync_confirmDelete (R : Remote) (w : World) :
  in_sync (ui w) -> in_sync (ui (confirmDelete R w)).
Proof.
  intros H. rewrite confirmDelete_eq. cbv zeta.
  destruct (snd (verifyTokenPermissions R (token (ui w)) w)) as [err | u].
  - revert H. apply in_sync_same; reflexivity.
  - unfold report, runBatch.
    match goal with
    | |- context [deleteLoop R ?t u ?s ?b0] =>
        assert (Hb : in_sync (ui (world (deleteLoop R t u s b0))))
          by (apply in_sync_deleteLoop; cbn [world ui on_ui];
              apply in_sync_setRepositories);
        set (b := deleteLoop R t u s b0) in *
    end.
    destruct (0 <? failureCount b)%nat.
    + revert Hb. apply in_sync_same; reflexivity.
    + match goal with
      | |- context [fetchRepositories R ?w0] =>
          pose proof (in_sync_fetchRepositories R w0) as Hf
      end.
      revert Hf. apply in_sync_same; reflexivity.
Qed.

(** X22.  The view is always the one derived from the catalog under the
    query and the configuration, and the list of languages, while the
    catalog is not empty, is always the one computed from the catalog:
    this holds when the component mounts and is kept by every handler:
    the toggles, the removal from the selection, a change of the query or
    of the configuration, a fetch, the opening and the run of a batch. *)
Theorem view_and_languages_stay_in_sync :
  in_sync initialState /\
  (forall st,
      in_sync st ->
      (forall b, in_sync (toggleSelectAll b st)) /\
      (forall id0, in_sync (toggleRepository id0 st)) /\
      (forall repo, in_sync (clickCheckbox repo st)) /\
      (forall id0, in_sync (removeFromSelection id0 st)) /\
      (forall q, in_sync (setSearchTerm q st)) /\
      (forall f, in_sync (setFilters f st))) /\
  (forall (R : Remote) (w : World),
      in_sync (ui w) ->
      in_sync (ui (fetchRepositories R w)) /\
      in_sync (ui (handleDeleteSelected w)) /\
      in_sync (ui (clickDeleteSelected w)) /\
      in_sync (ui (confirmDelete R w))).
Proof.
  split; [|split].
  - split; [reflexivity | intros H; now contradiction H].
  - intros st H. split; [|split; [|split; [|split; [|split]]]].
    + intros b. apply in_sync_setRepositories.
    + intros id0. apply in_sync_setRepositories.
    + intros repo. unfold clickCheckbox.
      destruct (checkbox_disabled repo); [exact H | apply in_sync_setRepositories].
    + intros id0. apply in_sync_removeFromSelection.
    + intros q. destruct H as [_ Hl]. split; [reflexivity | exact Hl].
    + intros f. destruct H as [_ Hl]. split; [reflexivity | exact Hl].
  - intros R w H.
    assert (Hh : in_sync (ui (handleDeleteSelected w))).
    { unfold handleDeleteSelected.
      destruct (_ =? 0)%nat; revert H; apply in_sync_same; reflexivity. }
    split; [apply in_sync_fetchRepositories|]. split; [exact Hh|]. split.
    + unfold clickDeleteSelected. now destruct (deleteButton_disabled (ui w)).
    + now apply in_sync_confirmDelete.
Qed.
End InSync.

Lemma view_and_languages_stay_in_sync_witness :
  in_sync (P := ordinalPlatform)
    (ui (confirmDelete (P := ordinalPlatform) goodRemote
           (on_ui (toggleRepository (P := ordinalPlatform) 2)
              (mkWorld initialState [])))).
Proof.
  destruct (view_and_languages_stay_in_sync (P := ordinalPlatform))
    as (H0 & Hst & Hw).
  apply Hw. cbn [ui on_ui]. now apply Hst.
Defined.

(** ** The component and the earlier one *)

Section Agreement.
Context {P : Platform} (R : Remote).

Lemma loading_setRepositories (f : list Repository -> list Repository) (st : State) :
  loading (setRepositories f st) = loading st.
Proof.
  unfold setRepositories, languagesEffect. destruct (0 <? _)%nat; reflexivity.
Qed.

Lemma deleteInProgress_setRepositories (f : list Repository -> list Repository)
  (st : State) :
  deleteInProgress (setRepositories f st) = deleteInProgress st.
Proof.
  unfold setRepositories, languagesEffect. destruct (0 <? _)%nat; reflexivity.
Qed.

Ltac settle_agree :=
  unfold agree;
  cbn [world ui on_ui record network repositories token error loading
         deleteInProgress toast setError setSuccess setLoading
         setDeleteInProgress setDeleteConfirmationOpen
         Legacy.setRepositories upd_repositories];
  rewrite ?repositories_setRepositories, ?token_setRepositories,
    ?error_setRepositories, ?loading_setRepositories,
    ?deleteInProgress_setRepositories;
  cbn [repositories token error loading deleteInProgress toast setError
         setSuccess setLoading setDeleteInProgress setDeleteConfirmationOpen].

Lemma agree_deleteOne (tok u : string) (repo : Repository) (b b' : Batch) :
  agree (world b) (world b') ->
  successCount b = successCount b' -> failureCount b = failureCount b' ->
  agree (world (deleteOne R tok u repo b)) (world (Legacy.deleteOne R tok u repo b')) /\
  successCount (deleteOne R tok u repo b)
  = successCount (Legacy.deleteOne R tok u repo b') /\
  failureCount (deleteOne R tok u repo b)
  = failureCount (Legacy.deleteOne R tok u repo b').
Proof.
  intros (Hn & Hr & Ht & He & Hl & Hd) Hs Hf.
  unfold deleteOne, Legacy.deleteOne, request_delete. rewrite ?Hn.
  destruct (respond_delete R tok (network (world b')) u (name repo)) as [err|];
    settle_agree; cbn [successCount failureCount];
    rewrite ?Hn, ?Hr, ?Ht, ?He, ?Hl, ?Hd, ?Hs, ?Hf; repeat split.
Qed.

Lemma agree_deleteLoop (tok u : string) (sel : list Repository) (b b' : Batch) :
  agree (world b) (world b') ->
  successCount b = successCount b' -> failureCount b = failureCount b' ->
  agree (world (deleteLoop R tok u sel b)) (world (Legacy.deleteLoop R tok u sel b')) /\
  successCount (deleteLoop R tok u sel b)
  = successCount (Legacy.deleteLoop R tok u sel b') /\
  failureCount (deleteLoop R tok u sel b)
  = failureCount (Legacy.deleteLoop R tok u sel b').
Proof.
  revert b b'. induction sel as [|repo sel IH]; intros b b' Ha Hs Hf; simpl.
  - auto.
  - destruct (agree_deleteOne tok u repo b b' Ha Hs Hf) as (Ha' & Hs' & Hf').
    now apply IH.
Qed.

Lemma agree_fetchRepositories (w w' : World) :
  agree w w' ->
  agree (fetchRepositories R w) (Legacy.fetchRepositories R w').
Proof.
  intros (Hn & Hr & Ht & He & Hl & Hd).
  rewrite fetchRepositories_cases. unfold Legacy.fetchRepositories.
  rewrite !verifyTokenPermissions_on_ui, verifyTokenPermissions_eq.
  cbn [fst snd ui on_ui token setSuccess setError setLoading network record].
  rewrite ?Hn, ?Ht.
  destruct (verify_outcome (respond_user R (token (ui w')) (network w')))
    as [err | u].
  - unfold fetch_catch, Legacy.fetch_catch. settle_agree.
    rewrite ?Hn, ?Ht, ?Hd. repeat split.
  - unfold request_repos. cbn [network record on_ui].
    destruct (respond_repos R (token (ui w')) _) as [err | data].
    + unfold fetch_catch, Legacy.fetch_catch. settle_agree.
      rewrite ?Hn, ?Ht, ?Hd. repeat split.
    + settle_agree. rewrite ?Hn, ?Ht, ?Hd. repeat split.
Qed.

Lemma agree_report (b b' : Batch) :
  agree (world b) (world b') ->
  successCount b = successCount b' -> failureCount b = failureCount b' ->
  agree (report R b) (Legacy.report R b').
Proof.
  intros Ha Hs Hf. unfold report, Legacy.report. rewrite ?Hs, ?Hf.
  destruct (0 <? failureCount b')%nat.
  - destruct Ha as (Hn & Hr & Ht & He & Hl & Hd). settle_agree.
    rewrite ?Hn, ?Hr, ?Ht, ?Hl, ?Hd. repeat split.
  - apply agree_fetchRepositories.
    destruct Ha as (Hn & Hr & Ht & He & Hl & Hd). settle_agree.
    rewrite ?Hn, ?Hr, ?Ht, ?He, ?Hl, ?Hd. repeat split.
Qed.

(** X23.  The earlier [handleDeleteSelected] with nothing selected only
    sets the error; when the user declines the prompt it changes nothing
    at all; and when the user confirms it does what [confirmDelete] does:
    the two leave the same network log, the same catalog, the same error
    and the same progress flags. *)
Theorem earlier_handler_agrees (ask : string -> bool) (w : World) :
  (selectedRepositories (ui w) = [] ->
   Legacy.handleDeleteSelected R ask w
   = on_ui (setError "Please select repositories to delete") w) /\
  (selectedRepositories (ui w) <> [] ->
   ask (Legacy.prompt (List.length (selectedRepositories (ui w)))) = false ->
   Legacy.handleDeleteSelected R ask w = w) /\
  (selectedRepositories (ui w) <> [] ->
   ask (Legacy.prompt (List.length (selectedRepositories (ui w)))) = true ->
   agree (confirmDelete R w) (Legacy.handleDeleteSelected R ask w)).
Proof.
  unfold selectedRepositories. split; [|split].
  - intros Hsel. unfold Legacy.handleDeleteSelected. now rewrite ?Hsel.
  - intros Hsel Hask. unfold Legacy.handleDeleteSelected.
    destruct (List.length _ =? 0)%nat eqn:E.
    + apply length_zero_nil in E. contradiction.
    + now rewrite ?Hask.
  - intros Hsel Hask. unfold Legacy.handleDeleteSelected.
    destruct (List.length _ =? 0)%nat eqn:E.
    + apply length_zero_nil in E. contradiction.
    + rewrite ?Hask. cbn [negb]. rewrite confirmDelete_eq. cbv zeta.
      rewrite !verifyTokenPermissions_on_ui.
      cbn [fst snd ui on_ui token setSuccess setError setDeleteInProgress].
      change (fst (verifyTokenPermissions R (token (ui w)) w))
        with (record [Sent GET_user;
                      Settled GET_user
                        (failure_of (respond_user R (token (ui w)) (network w)))] w).
      destruct (snd (verifyTokenPermissions R (token (ui w)) w)) as [err | u].
      * settle_agree. repeat split.
      * assert (Ha : agree
                       (report R
                          (runBatch R (token (ui w)) u
                             (filter is_selected (repositories (ui w)))
                             (record [Sent GET_user;
                                      Settled GET_user
                                        (failure_of
                                           (respond_user R (token (ui w)) (network w)))]
                                (confirm_prologue w))))
                       (Legacy.report R
                          (Legacy.deleteLoop R (token (ui w)) u
                             (filter is_selected (repositories (ui w)))
                             (mkBatch
                                (on_ui (Legacy.setRepositories markPending)
                                   (on_ui (setSuccess "")
                                      (on_ui (setError "")
                                         (on_ui (setDeleteInProgress true)
                                            (record [Sent GET_user;
                                                     Settled GET_user
                                                       (failure_of
                                                          (respond_user R (token (ui w))
                                                             (network w)))] w)))))
                                0 0)))).
        { unfold runBatch.
          match goal with
          | |- agree (report R (deleteLoop R ?t u ?s ?b0))
                     (Legacy.report R (Legacy.deleteLoop R _ _ _ ?b1)) =>
              destruct (agree_deleteLoop t u s b0 b1) as (Hw & Hs & Hf);
              [settle_agree; repeat split | reflexivity | reflexivity |]
          end.
          now apply agree_report. }
        destruct Ha as (Hn & Hr & Ht & He & Hl & Hd).
        settle_agree. rewrite ?Hn, ?Hr, ?Ht, ?He, ?Hl. repeat split.
Qed.
End Agreement.

Lemma earlier_handler_agrees_witness :
  network (Legacy.handleDeleteSelected goodRemote (fun _ => true)
             (worldOf [repoA; repoB; repoC]))
  = network (confirmDelete (P := ordinalPlatform) goodRemote
               (worldOf [repoA; repoB; repoC])) /\
  Legacy.handleDeleteSelected goodRemote (fun _ => false)
    (worldOf [repoA; repoB; repoC])
  = worldOf [repoA; repoB; repoC].
Proof.
  destruct (earlier_handler_agrees (P := ordinalPlatform) goodRemote (fun _ => true)
              (worldOf [repoA; repoB; repoC])) as (_ & _ & Hyes).
  destruct (earlier_handler_agrees (P := ordinalPlatform) goodRemote (fun _ => false)
              (worldOf [repoA; repoB; repoC])) as (_ & Hno & _).
  assert (Hsel : selectedRepositories (ui (worldOf [repoA; repoB; repoC])) <> [])
    by (vm_compute; discriminate).
  destruct (Hyes Hsel eq_refl) as (Hn & _).
  split; [now symmetry | exact (Hno Hsel eq_refl)].
Defined.

(** ** The view has no say in a batch *)

(** X24.  Changing the query or the configuration changes neither the
    selection nor what a batch does on the network: an item that is
    selected and hidden from the view is listed for confirmation and
    deleted like the others. *)
Theorem batch_ignores_the_view {P : Platform} (R : Remote) (w : World)
  (q : string) (f : Filters.t) :
  selectedRepositories (setFilters f (setSearchTerm q (ui w)))
  = selectedRepositories (ui w) /\
  network (confirmDelete R (on_ui (fun st => setFilters f (setSearchTerm q st)) w))
  = network (confirmDelete R w) /\
  network (handleDeleteSelected (on_ui (fun st => setFilters f (setSearchTerm q st)) w))
  = network w.
Proof.
  split; [reflexivity|]. split.
  - pose proof (network_confirmDelete R w) as H.
    pose proof (network_confirmDelete R
                  (on_ui (fun st => setFilters f (setSearchTerm q st)) w)) as H'.
    cbv zeta in H, H'. rewrite H, H'. reflexivity.
  - unfold handleDeleteSelected. now destruct (_ =? 0)%nat.
Qed.

(** ** The error after a run *)

Lemma truthy_not_empty (s : string) : JS.truthy s = true -> s <> "".
Proof. intros H ->. discriminate. Qed.

(** X25.  If the error is empty when a run of [confirmDelete] ends, the
    credential was verified, no deletion was rejected and the refetch
    succeeded: every other way through the run leaves an error to
    show. *)
Theorem no_error_means_all_deleted {P : Platform} (R : Remote) (w : World) :
  error (ui (confirmDelete R w)) = "" ->
  exists u,
    snd (verifyTokenPermissions R (token (ui w)) w) = inr u /\
    let b := runBatch R (token (ui w)) u (filter is_selected (repositories (ui w)))
               (fst (verifyTokenPermissions R (token (ui w)) (confirm_prologue w))) in
    failureCount b = O /\
    successCount b = List.length (selectedRepositories (ui w)) /\
    error (ui (fetchRepositories R
                 (on_ui (setSuccess "All selected repositories were deleted successfully!")
                    (world b)))) = "".
Proof.
  rewrite confirmDelete_eq. cbv zeta.
  destruct (snd (verifyTokenPermissions R (token (ui w)) w)) as [err | u] eqn:Hv.
  - cbn. intros E. exfalso. cbn in Hv.
    destruct (verify_outcome_message _ _ Hv) as [Hm _].
    now apply truthy_not_empty in Hm.
  - intros E. exists u. split; [reflexivity|].
    change (fst (verifyTokenPermissions R (token (ui w)) (confirm_prologue w)))
      with (record [Sent GET_user;
                    Settled GET_user
                      (failure_of (respond_user R (token (ui w)) (network w)))]
              (confirm_prologue w)).
    cbv zeta.
    match goal with
    | |- context [runBatch R ?t u ?s ?w1] =>
        destruct (runBatch_eq R t u s w1) as (_ & _ & _ & Hs & Hf);
        set (b := runBatch R t u s w1) in *
    end.
    cbv zeta in Hs, Hf. unfold report in E.
    destruct (0 <? failureCount b)%nat eqn:Hlt.
    + cbn in E. discriminate E.
    + apply Nat.ltb_ge in Hlt.
      assert (Hf0 : failureCount b = O) by lia.
      split; [exact Hf0|]. split; [|exact E].
      rewrite Hs. unfold selectedRepositories.
      match goal with
      | |- List.length (filter _ ?outs) = _ =>
          pose proof (length_filter_failed outs) as Hl;
          assert (Hlen : List.length outs
                         = List.length (filter is_selected (repositories (ui w))))
            by (rewrite <- (length_map fst); now rewrite map_fst_outcomes)
      end.
      rewrite Hf in Hf0. lia.
Qed.

Lemma no_error_means_all_deleted_witness :
  exists u,
    snd (verifyTokenPermissions goodRemote "ghp_token" (worldOf [repoA; repoC]))
    = inr u.
Proof.
  destruct (no_error_means_all_deleted (P := ordinalPlatform) goodRemote
              (worldOf [repoA; repoC]) eq_refl) as (u & Hv & _).
  now exists u.
Defined.
